(** * trust_time: document addresses and trusted timestamps

    A shallow embedding of [src/trust_time.js].  Buffers are lists of bytes,
    32-bit words are [N] with the wrap-around written out, the callbacks of
    the asynchronous functions become explicit outcomes. *)

From Stdlib Require Import NArith ZArith List String Ascii Bool Lia.
From Stdlib Require Import Init.Byte Strings.Byte.
Import ListNotations.

Local Open Scope N_scope.

(** ** Bytes and buffers *)

Definition Buffer := list byte.

(** The byte holding [n] reduced modulo 256 (a store into a byte array). *)
Definition byte_of_N (n : N) : byte :=
  match Byte.of_N (n mod 256) with
  | Some b => b
  | None => x00
  end.

Definition bytes_of_Ns (l : list N) : Buffer := map byte_of_N l.
Definition Ns_of_bytes (b : Buffer) : list N := map Byte.to_N b.

(** [buf.toString('hex')]: two lowercase hexadecimal digits per byte. *)
Definition hex_digit (n : N) : ascii :=
  match n with
  | 0 => "0" | 1 => "1" | 2 => "2" | 3 => "3" | 4 => "4" | 5 => "5"
  | 6 => "6" | 7 => "7" | 8 => "8" | 9 => "9" | 10 => "a" | 11 => "b"
  | 12 => "c" | 13 => "d" | 14 => "e" | _ => "f"
  end%char.

Fixpoint toString_hex (b : Buffer) : string :=
  match b with
  | [] => EmptyString
  | x :: b' =>
      String (hex_digit (Byte.to_N x / 16))
        (String (hex_digit (Byte.to_N x mod 16)) (toString_hex b'))
  end.

(** The bytes of a string of ASCII characters. *)
Definition ascii_bytes (s : string) : Buffer :=
  map byte_of_ascii (list_ascii_of_string s).

(** Splitting a padded message into blocks of [n] elements. *)
Fixpoint chunks {A : Type} (fuel : nat) (n : nat) (l : list A) : list (list A) :=
  match fuel with
  | O => []
  | S fuel' =>
      match l with
      | [] => []
      | _ => firstn n l :: chunks fuel' n (skipn n l)
      end
  end.

(** ** The hash functions of Node's [crypto] module

    [crypto.createHash(name)], calls of [update] and one [digest] compute
    the named hash of the bytes passed to [update].  The module is a
    dependency outside the repository; the two algorithms the program asks
    for are written out after their standards (FIPS 180-4 for SHA-256, the
    RIPEMD-160 paper of Dobbertin, Bosselaers and Preneel), so that the
    address pipeline can be run on concrete digests. *)

Module Word32.

Definition modulus : N := 4294967296.
Definition wrap (x : N) : N := x mod modulus.
Definition add (x y : N) : N := wrap (x + y).
Definition not (x : N) : N := N.lxor (wrap x) 4294967295.
Definition rotl (s x : N) : N :=
  N.lor (wrap (N.shiftl x s)) (N.shiftr (wrap x) (32 - s)).
Definition rotr (s x : N) : N := rotl (32 - s) x.

(** Big-endian and little-endian words from four bytes, and back. *)
Definition of_be (b : list N) : N :=
  fold_left (fun acc x => acc * 256 + x) b 0.
Definition of_le (b : list N) : N := of_be (rev b).
Definition to_be (w : N) : Buffer :=
  [byte_of_N (w / 16777216); byte_of_N (w / 65536);
   byte_of_N (w / 256); byte_of_N w].
Definition to_le (w : N) : Buffer := rev (to_be w).

(** The 64-bit length field of the padding. *)
Definition len64_be (bits : N) : list N :=
  map (fun i => (bits / 2 ^ (8 * i)) mod 256) [7; 6; 5; 4; 3; 2; 1; 0].
Definition len64_le (bits : N) : list N := rev (len64_be bits).

(** Number of zero bytes between the [0x80] marker and the length field. *)
Definition pad_zeros (len : nat) : nat := (119 - len mod 64) mod 64.

End Word32.

Module SHA256.
Import Word32.

Definition Ch (x y z : N) : N := N.lxor (N.land x y) (N.land (not x) z).
Definition Maj (x y z : N) : N :=
  N.lxor (N.lxor (N.land x y) (N.land x z)) (N.land y z).
Definition Sigma0 (x : N) : N :=
  N.lxor (N.lxor (rotr 2 x) (rotr 13 x)) (rotr 22 x).
Definition Sigma1 (x : N) : N :=
  N.lxor (N.lxor (rotr 6 x) (rotr 11 x)) (rotr 25 x).
Definition sigma0 (x : N) : N :=
  N.lxor (N.lxor (rotr 7 x) (rotr 18 x)) (N.shiftr x 3).
Definition sigma1 (x : N) : N :=
  N.lxor (N.lxor (rotr 17 x) (rotr 19 x)) (N.shiftr x 10).

Definition K : list N :=
  [0x428A2F98; 0x71374491; 0xB5C0FBCF; 0xE9B5DBA5;
   0x3956C25B; 0x59F111F1; 0x923F82A4; 0xAB1C5ED5;
   0xD807AA98; 0x12835B01; 0x243185BE; 0x550C7DC3;
   0x72BE5D74; 0x80DEB1FE; 0x9BDC06A7; 0xC19BF174;
   0xE49B69C1; 0xEFBE4786; 0x0FC19DC6; 0x240CA1CC;
   0x2DE92C6F; 0x4A7484AA; 0x5CB0A9DC; 0x76F988DA;
   0x983E5152; 0xA831C66D; 0xB00327C8; 0xBF597FC7;
   0xC6E00BF3; 0xD5A79147; 0x06CA6351; 0x14292967;
   0x27B70A85; 0x2E1B2138; 0x4D2C6DFC; 0x53380D13;
   0x650A7354; 0x766A0ABB; 0x81C2C92E; 0x92722C85;
   0xA2BFE8A1; 0xA81A664B; 0xC24B8B70; 0xC76C51A3;
   0xD192E819; 0xD6990624; 0xF40E3585; 0x106AA070;
   0x19A4C116; 0x1E376C08; 0x2748774C; 0x34B0BCB5;
   0x391C0CB3; 0x4ED8AA4A; 0x5B9CCA4F; 0x682E6FF3;
   0x748F82EE; 0x78A5636F; 0x84C87814; 0x8CC70208;
   0x90BEFFFA; 0xA4506CEB; 0xBEF9A3F7; 0xC67178F2].

Record regs : Type := Regs {
  ra : N; rb : N; rc : N; rd : N; re : N; rf : N; rg : N; rh : N
}.

Definition init : regs :=
  Regs 0x6A09E667 0xBB67AE85 0x3C6EF372 0xA54FF53A
       0x510E527F 0x9B05688C 0x1F83D9AB 0x5BE0CD19.

Definition round (k w : N) (s : regs) : regs :=
  let t1 := add (add (add (rh s) (Sigma1 (re s))) (Ch (re s) (rf s) (rg s)))
                (add k w) in
  let t2 := add (Sigma0 (ra s)) (Maj (ra s) (rb s) (rc s)) in
  Regs (add t1 t2) (ra s) (rb s) (rc s) (add (rd s) t1) (re s) (rf s) (rg s).

(** The sixty-four rounds; [w] is the window of the sixteen most recent
    words of the message schedule. *)
Fixpoint rounds (ks : list N) (w : list N) (s : regs) : regs :=
  match ks with
  | [] => s
  | k :: ks' =>
      let wt := nth 0 w 0 in
      let wnew := add (add (sigma1 (nth 14 w 0)) (nth 9 w 0))
                      (add (sigma0 (nth 1 w 0)) wt) in
      rounds ks' (tl w ++ [wnew]) (round k wt s)
  end.

Definition compress (h : regs) (block : list N) : regs :=
  let w := map of_be (chunks 16 4 block) in
  let s := rounds K w h in
  Regs (add (ra h) (ra s)) (add (rb h) (rb s)) (add (rc h) (rc s))
       (add (rd h) (rd s)) (add (re h) (re s)) (add (rf h) (rf s))
       (add (rg h) (rg s)) (add (rh h) (rh s)).

Definition pad (m : list N) : list N :=
  m ++ 128 :: repeat 0 (pad_zeros (List.length m))
    ++ len64_be (8 * N.of_nat (List.length m)).

Definition digest_words (s : regs) : Buffer :=
  to_be (ra s) ++ to_be (rb s) ++ to_be (rc s) ++ to_be (rd s)
    ++ to_be (re s) ++ to_be (rf s) ++ to_be (rg s) ++ to_be (rh s).

(** Modelled from the spec: the SHA256 of the specification, which Node's
    [crypto] module (not part of the repository) computes. *)
Definition hash (m : Buffer) : Buffer :=
  let p := pad (Ns_of_bytes m) in
  digest_words (fold_left compress (chunks (List.length p) 64 p) init).

End SHA256.

Module RIPEMD160.
Import Word32.

Definition f (j : nat) (x y z : N) : N :=
  if (j <? 16)%nat then N.lxor (N.lxor x y) z
  else if (j <? 32)%nat then N.lor (N.land x y) (N.land (not x) z)
  else if (j <? 48)%nat then N.lxor (N.lor x (not y)) z
  else if (j <? 64)%nat then N.lor (N.land x z) (N.land y (not z))
  else N.lxor x (N.lor y (not z)).

Definition KL (j : nat) : N :=
  nth (j / 16) [0x00000000; 0x5A827999; 0x6ED9EBA1; 0x8F1BBCDC; 0xA953FD4E] 0.
Definition KR (j : nat) : N :=
  nth (j / 16) [0x50A28BE6; 0x5C4DD124; 0x6D703EF3; 0x7A6D76E9; 0x00000000] 0.

(** Message word selection, left and right line. *)
Definition RL : list nat :=
  [0; 1; 2; 3; 4; 5; 6; 7; 8; 9; 10; 11; 12; 13; 14; 15;
   7; 4; 13; 1; 10; 6; 15; 3; 12; 0; 9; 5; 2; 14; 11; 8;
   3; 10; 14; 4; 9; 15; 8; 1; 2; 7; 0; 6; 13; 11; 5; 12;
   1; 9; 11; 10; 0; 8; 12; 4; 13; 3; 7; 15; 14; 5; 6; 2;
   4; 0; 5; 9; 7; 12; 2; 10; 14; 1; 3; 8; 11; 6; 15; 13]%nat.
Definition RR : list nat :=
  [5; 14; 7; 0; 9; 2; 11; 4; 13; 6; 15; 8; 1; 10; 3; 12;
   6; 11; 3; 7; 0; 13; 5; 10; 14; 15; 8; 12; 4; 9; 1; 2;
   15; 5; 1; 3; 7; 14; 6; 9; 11; 8; 12; 2; 10; 0; 4; 13;
   8; 6; 4; 1; 3; 11; 15; 0; 5; 12; 2; 13; 9; 7; 10; 14;
   12; 15; 10; 4; 1; 5; 8; 7; 6; 2; 13; 14; 0; 3; 9; 11]%nat.

(** Rotation amounts, left and right line. *)
Definition SL : list N :=
  [11; 14; 15; 12; 5; 8; 7; 9; 11; 13; 14; 15; 6; 7; 9; 8;
   7; 6; 8; 13; 11; 9; 7; 15; 7; 12; 15; 9; 11; 7; 13; 12;
   11; 13; 6; 7; 14; 9; 13; 15; 14; 8; 13; 6; 5; 12; 7; 5;
   11; 12; 14; 15; 14; 15; 9; 8; 9; 14; 5; 6; 8; 6; 5; 12;
   9; 15; 5; 11; 6; 8; 13; 12; 5; 12; 13; 14; 11; 8; 5; 6].
Definition SR : list N :=
  [8; 9; 9; 11; 13; 15; 15; 5; 7; 7; 8; 11; 14; 14; 12; 6;
   9; 13; 15; 7; 12; 8; 9; 11; 7; 7; 12; 7; 6; 15; 13; 11;
   9; 7; 15; 11; 8; 6; 6; 14; 12; 13; 5; 14; 13; 13; 7; 5;
   15; 5; 8; 11; 14; 14; 6; 14; 6; 9; 12; 9; 12; 5; 15; 8;
   8; 5; 12; 9; 12; 5; 14; 6; 8; 13; 6; 5; 15; 13; 11; 11].

Record regs : Type := Regs { ra : N; rb : N; rc : N; rd : N; re : N }.

Definition init : regs :=
  Regs 0x67452301 0xEFCDAB89 0x98BADCFE 0x10325476 0xC3D2E1F0.

Definition step (fj k x s : N) (r : regs) : regs :=
  let t := add (rotl s (add (add (ra r) fj) (add x k))) (re r) in
  Regs (re r) t (rb r) (rotl 10 (rc r)) (rd r).

Definition stepL (x : list N) (r : regs) (j : nat) : regs :=
  step (f j (rb r) (rc r) (rd r)) (KL j) (nth (nth j RL O) x 0) (nth j SL 0) r.
Definition stepR (x : list N) (r : regs) (j : nat) : regs :=
  step (f (79 - j) (rb r) (rc r) (rd r)) (KR j) (nth (nth j RR O) x 0)
       (nth j SR 0) r.

Definition compress (h : regs) (block : list N) : regs :=
  let x := map of_le (chunks 16 4 block) in
  let l := fold_left (stepL x) (seq 0 80) h in
  let r := fold_left (stepR x) (seq 0 80) h in
  Regs (add (add (rb h) (rc l)) (rd r))
       (add (add (rc h) (rd l)) (re r))
       (add (add (rd h) (re l)) (ra r))
       (add (add (re h) (ra l)) (rb r))
       (add (add (ra h) (rb l)) (rc r)).

Definition pad (m : list N) : list N :=
  m ++ 128 :: repeat 0 (pad_zeros (List.length m))
    ++ len64_le (8 * N.of_nat (List.length m)).

Definition digest_words (s : regs) : Buffer :=
  to_le (ra s) ++ to_le (rb s) ++ to_le (rc s) ++ to_le (rd s)
    ++ to_le (re s).

(** Modelled from the spec: the RIPEMD160 of the specification, which
    Node's [crypto] module (not part of the repository) computes. *)
Definition hash (m : Buffer) : Buffer :=
  let p := pad (Ns_of_bytes m) in
  digest_words (fold_left compress (chunks (List.length p) 64 p) init).

End RIPEMD160.

(** ** Positional notation

    Numbers as lists of digits in a base, most significant digit first. *)

Module Radix.

Fixpoint digits_aux (base : N) (fuel : nat) (n : N) (acc : list N) : list N :=
  match fuel with
  | O => acc
  | S fuel' =>
      if n =? 0 then acc
      else digits_aux base fuel' (n / base) (n mod base :: acc)
  end.

(** The digits of [n], none for zero.  Every division by a base of at
    least two removes a bit, so the bit size of [n] is enough fuel. *)
Definition to_digits (base : N) (n : N) : list N :=
  digits_aux base (N.to_nat (N.size n)) n [].

Definition of_digits (base : N) (ds : list N) : N :=
  fold_left (fun acc d => acc * base + d) ds 0.

Fixpoint count_leading {A : Type} (p : A -> bool) (l : list A) : nat :=
  match l with
  | [] => O
  | x :: l' => if p x then S (count_leading p l') else O
  end.

(** A list of digits without a leading zero. *)
Definition normal (ds : list N) : Prop :=
  match ds with
  | [] => True
  | d :: _ => d <> 0
  end.

End Radix.

(** ** The [bs58] package

    The npm dependency [bs58] is not part of the repository; its two
    functions are the base-58 encoding of the ledger ecosystem and the
    decoding of it. *)

Module bs58.
Import Radix.

Definition ALPHABET : string :=
  "123456789ABCDEFGHJKLMNPQRSTUVWXYZabcdefghijkmnopqrstuvwxyz"%string.
Definition BASE : N := 58.

Definition alphabet_char (d : N) : ascii :=
  nth (N.to_nat d) (list_ascii_of_string ALPHABET) "1"%char.

Fixpoint index_of (c : ascii) (l : list ascii) : option nat :=
  match l with
  | [] => None
  | x :: l' =>
      if Ascii.eqb c x then Some O else option_map S (index_of c l')
  end.

Definition digit_of_char (c : ascii) : option N :=
  option_map N.of_nat (index_of c (list_ascii_of_string ALPHABET)).

Fixpoint digits_of_chars (l : list ascii) : option (list N) :=
  match l with
  | [] => Some []
  | c :: l' =>
      match digit_of_char c, digits_of_chars l' with
      | Some d, Some ds => Some (d :: ds)
      | _, _ => None
      end
  end.

Definition is_zero_byte (b : byte) : bool := Byte.to_N b =? 0.

(** Modelled from the spec: [bs58.encode], the base58Encode of the
    specification.  Every leading zero byte becomes the character 1, the
    buffer is read as one big-endian number and written in base 58 over
    [ALPHABET], without padding. *)
Definition encode (buffer : Buffer) : string :=
  let zeros := count_leading is_zero_byte buffer in
  let n := of_digits 256 (Ns_of_bytes buffer) in
  string_of_list_ascii
    (repeat "1"%char zeros ++ map alphabet_char (to_digits BASE n)).

(** Modelled from the spec: [bs58.decode], the base-58 decoding the
    specification's checks use.  Every leading 1 becomes a zero byte, the
    digits are read as one number and written in bytes; a character outside
    [ALPHABET] is an error. *)
Definition decode (s : string) : option Buffer :=
  match digits_of_chars (list_ascii_of_string s) with
  | None => None
  | Some ds =>
      let zeros := count_leading (N.eqb 0) ds in
      Some (repeat x00 zeros
              ++ bytes_of_Ns (to_digits 256 (of_digits BASE ds)))
  end.

End bs58.

(** ** JavaScript values used by the program *)

(** Numbers, as far as the program meets them: integers and NaN. *)
Inductive Number : Type :=
| NaN
| Num (z : Z).

(** Exceptions and error objects. *)
Inductive Error : Type :=
| RangeError (message : string)
| TypeError (message : string)
| SystemError (code : string)
| RestError (statusCode : Z) (message : string).

(** A value passed as the [err] argument of a callback: the program passes
    both error objects and plain strings. *)
Inductive ErrValue : Type :=
| err_object (e : Error)
| err_string (s : string).

Definition typeof (v : ErrValue) : string :=
  match v with
  | err_object _ => "object"%string
  | err_string _ => "string"%string
  end.

(** A synchronous call returns or throws. *)
Inductive Completion (A : Type) : Type :=
| Normal (a : A)
| Throw (e : Error).
Arguments Normal {A} a.
Arguments Throw {A} e.

Definition bind {A B : Type} (c : Completion A) (k : A -> Completion B)
  : Completion B :=
  match c with
  | Normal a => k a
  | Throw e => Throw e
  end.

Notation "x <- c ;; k" := (bind c (fun x => k))
  (at level 61, c at next level, right associativity).

(** An asynchronous operation with a Node-style callback: the callback is
    called with an error, or with [null] and a result; or an exception
    escapes to the event loop; or the callback is never called. *)
Inductive Outcome (A : Type) : Type :=
| callback_err (err : ErrValue)
| callback_ok (result : A)
| uncaught (e : Error)
| pending.
Arguments callback_err {A} err.
Arguments callback_ok {A} result.
Arguments uncaught {A} e.
Arguments pending {A}.

(** *** String to number conversion

    [ToNumber] on a string, for the literals the program converts: the empty
    string, decimal integers and hexadecimal integers.  Strings with white
    space, a sign, a fraction or an exponent do not occur in the program and
    are not covered: outside the three forms the result here is NaN. *)
Definition digit_value (c : ascii) : option N :=
  let n := N_of_ascii c in
  if (48 <=? n) && (n <=? 57) then Some (n - 48)
  else if (97 <=? n) && (n <=? 102) then Some (n - 87)
  else if (65 <=? n) && (n <=? 70) then Some (n - 55)
  else None.

Fixpoint parse_digits (base : N) (l : list ascii) (acc : N) : option N :=
  match l with
  | [] => Some acc
  | c :: l' =>
      match digit_value c with
      | Some d => if d <? base then parse_digits base l' (acc * base + d)
                  else None
      | None => None
      end
  end.

Definition number_of_option (o : option N) : Number :=
  match o with
  | Some n => Num (Z.of_N n)
  | None => NaN
  end.

Definition StringToNumber (s : string) : Number :=
  match list_ascii_of_string s with
  | [] => Num 0
  | "0"%char :: "x"%char :: d :: l
  | "0"%char :: "X"%char :: d :: l =>
      number_of_option (parse_digits 16 (d :: l) 0)
  | l => number_of_option (parse_digits 10 l 0)
  end.

(** [Number(o)] for a plain object: its primitive value is the string
    [[object Object]]. *)
Definition Number_of_object {A : Type} (o : A) : Number :=
  StringToNumber "[object Object]".

Definition Number_sub (x y : Number) : Number :=
  match x, y with
  | Num a, Num b => Num (a - b)
  | _, _ => NaN
  end.

(** A store into a byte array converts the number modulo 256; NaN is
    stored as 0. *)
Definition ToUint8 (x : Number) : byte :=
  match x with
  | NaN => x00
  | Num z => byte_of_N (Z.to_N (z mod 256))
  end.

(** *** Buffers *)

(** [new Buffer(size)] does not initialise its memory: the contents are
    whatever [mem] holds. *)
Definition Buffer_alloc (mem : nat -> byte) (size : nat) : Buffer :=
  map mem (seq 0 size).

(** [buf[i] = v]; a store outside the buffer is ignored. *)
Fixpoint Buffer_set (buf : Buffer) (i : nat) (v : byte) : Buffer :=
  match buf, i with
  | [], _ => []
  | _ :: buf', O => v :: buf'
  | x :: buf', S i' => x :: Buffer_set buf' i' v
  end.

(** [source.copy(target, targetStart)].  Nothing is copied from or to an
    empty buffer; a start at or behind the end of the target raises a
    [RangeError] (as early Node versions do; later ones copy nothing
    instead); otherwise as many bytes as fit are copied. *)
Definition Buffer_copy (source target : Buffer) (targetStart : nat)
  : Completion Buffer :=
  match source, target with
  | [], _ | _, [] => Normal target
  | _, _ =>
      if (List.length target <=? targetStart)%nat
      then Throw (RangeError "targetStart out of bounds")
      else
        let n := Nat.min (List.length source) (List.length target - targetStart) in
        Normal (firstn targetStart target ++ firstn n source
                  ++ skipn (targetStart + n) target)
  end.

(** [buf.slice(start, end)], for indices that are not negative. *)
Definition Buffer_slice (buf : Buffer) (start end_ : nat) : Buffer :=
  firstn (end_ - start) (skipn start buf).

(** [Buffer.concat(list, totalLength)]: the concatenation cut or
    zero-filled to [totalLength]. *)
Definition Buffer_concat (bufs : list Buffer) (totalLength : nat) : Buffer :=
  let all := List.concat bufs in
  firstn totalLength (all ++ repeat x00 (totalLength - List.length all)).

(** [array.sort(comparefn)]: a comparator result of NaN counts as 0, and
    the sort is stable.  Insertion from the left: each element goes behind
    all the elements that are not greater. *)
Definition SortCompare {A : Type} (comparefn : A -> A -> Number) (x y : A) : Z :=
  match comparefn x y with
  | NaN => 0%Z
  | Num v => v
  end.

Fixpoint sort_insert {A : Type} (comparefn : A -> A -> Number) (x : A)
    (l : list A) : list A :=
  match l with
  | [] => [x]
  | y :: l' =>
      if (0 <? SortCompare comparefn y x)%Z then x :: y :: l'
      else y :: sort_insert comparefn x l'
  end.

Definition Array_sort {A : Type} (comparefn : A -> A -> Number) (l : list A)
  : list A :=
  fold_left (fun acc x => sort_insert comparefn x acc) l [].

(** [new Date(ms)]: a time value beyond 8.64e15 milliseconds from the epoch
    in either direction gives an invalid date. *)
Inductive Date : Type :=
| DateValue (ms : Z)
| InvalidDate.

Definition new_Date (ms : Number) : Date :=
  match ms with
  | NaN => InvalidDate
  | Num t => if (Z.abs t <=? 8640000000000000)%Z then DateValue t
             else InvalidDate
  end.

(** ** The program: [src/trust_time.js] *)

Definition VERSION_BYTE : string := "0x00"%string.

Definition BLOCKCHAIN_HOST : string := "https://blockchain.info"%string.
Definition BLOCKCHAIN_URL_ADDRESS : string :=
  (BLOCKCHAIN_HOST ++ "/address")%string.

(** The trace object built by [generateAddress]. *)
Record Detail : Type := mkDetail {
  documentSHA256 : string;
  hash3 : string;
  hash4 : string;
  hash5 : string;
  hash6 : string;
  checksum : string;
  hashWithChecksum : string;
  base58Encode : string
}.

Record DocumentAddress : Type := new_DocumentAddress {
  address : string;
  sha256 : string;
  detail : Detail
}.

(** *** [_sha256File]

    The read stream of a file emits its chunks as 'data' events and then
    either 'end', or 'error' when the file cannot be opened or a read
    fails. *)
Inductive StreamEvent : Type :=
| ev_data (data : Buffer)
| ev_end
| ev_error (e : Error).

Inductive EventName : Type := on_data | on_end | on_error.

Definition EventName_eqb (a b : EventName) : bool :=
  match a, b with
  | on_data, on_data | on_end, on_end | on_error, on_error => true
  | _, _ => false
  end.

(** The events [_sha256File] registers a listener for with [stream.on]. *)
Definition _sha256File_listeners : list EventName := [on_data; on_end].

Definition has_listener (l : list EventName) (n : EventName) : bool :=
  existsb (EventName_eqb n) l.

(** The events of the stream, delivered in order.  [sha256sum] is the state
    of the hash object, the bytes it was updated with.  An 'error' event
    without a listener is thrown by the emitter; other events without a
    listener are dropped. *)
Fixpoint _sha256File_run (listeners : list EventName)
    (events : list StreamEvent) (sha256sum : Buffer) : Outcome Buffer :=
  match events with
  | [] => pending
  | ev_data data :: rest =>
      if has_listener listeners on_data
      then _sha256File_run listeners rest (sha256sum ++ data)
      else _sha256File_run listeners rest sha256sum
  | ev_end :: _ =>
      if has_listener listeners on_end
      then callback_ok (SHA256.hash sha256sum)
      else pending
  | ev_error e :: _ =>
      if has_listener listeners on_error
      then callback_err (err_object e)
      else uncaught e
  end.

(** What [fs.ReadStream(fileName)] does with a file: chunks read, and how
    the stream finishes. *)
Record ReadStream : Type := mkReadStream {
  stream_chunks : list Buffer;
  stream_failure : option Error
}.

Definition stream_events (s : ReadStream) : list StreamEvent :=
  map ev_data (stream_chunks s)
    ++ [match stream_failure s with
        | None => ev_end
        | Some e => ev_error e
        end].

Definition _sha256File (fs : string -> ReadStream) (fileName : string)
  : Outcome Buffer :=
  _sha256File_run _sha256File_listeners (stream_events (fs fileName)) [].

(** *** The address pipeline *)

Definition _ripemd160 (buffer : Buffer) : Buffer := RIPEMD160.hash buffer.

Definition _sha256 (buffer : Buffer) : Buffer := SHA256.hash buffer.

Definition _addVersionByte (mem : nat -> byte) (buffer : Buffer)
  : Completion Buffer :=
  let buf := Buffer_alloc mem (List.length buffer + 1) in
  let buf := Buffer_set buf 0 (ToUint8 (StringToNumber VERSION_BYTE)) in
  buf <- Buffer_copy buffer buf 1 ;;
  Normal buf.

Definition _addChecksum (hash checksum : Buffer) : Buffer :=
  let hashWithChecksum :=
    Buffer_concat [hash; checksum] (List.length hash + List.length checksum) in
  hashWithChecksum.

Definition generateAddress (mem : nat -> byte) (docHash : Buffer)
  : Completion DocumentAddress :=
  let hash3 := _ripemd160 docHash in
  hash4 <- _addVersionByte mem hash3 ;;
  let hash5 := _sha256 hash4 in
  let hash6 := _sha256 hash5 in
  let checksum := Buffer_slice hash6 0 4 in
  let hash4WithChecksum := _addChecksum hash4 checksum in
  let base58Encode := bs58.encode hash4WithChecksum in
  let detail := {|
    documentSHA256 := toString_hex docHash;
    hash3 := toString_hex hash3;
    hash4 := toString_hex hash4;
    hash5 := toString_hex hash5;
    hash6 := toString_hex hash6;
    checksum := toString_hex checksum;
    hashWithChecksum := toString_hex hash4WithChecksum;
    base58Encode := base58Encode
  |} in
  Normal (new_DocumentAddress base58Encode (documentSHA256 detail) detail).

(** [async.waterfall] of two tasks: the result of the first is passed to
    the second, an error goes to the final callback at once. *)
Definition waterfall {A B : Type} (task1 : Outcome A) (task2 : A -> Outcome B)
  : Outcome B :=
  match task1 with
  | callback_ok a => task2 a
  | callback_err e => callback_err e
  | uncaught e => uncaught e
  | pending => pending
  end.

Definition generateAddressForFile (fs : string -> ReadStream)
    (mem : nat -> byte) (fileName : string) : Outcome DocumentAddress :=
  waterfall (_sha256File fs fileName)
    (fun documentHash =>
       match generateAddress mem documentHash with
       | Normal a => callback_ok a
       | Throw e => uncaught e
       end).

(** *** [verifyTimestamp] *)

(** A transaction of the ledger response; only [time] is read. *)
Record Tx : Type := mkTx { time : Z }.

Record LedgerData : Type := mkLedgerData { txs : option (list Tx) }.

(** The arguments restify's [client.get] passes on: an error object, or the
    parsed body ([None] for a body that is not an object). *)
Record ClientReply : Type := mkClientReply {
  reply_err : option Error;
  reply_data : option LedgerData
}.

Record Options : Type := mkOptions { path : string; retry : nat }.

Definition comparator (a b : Tx) : Number :=
  Number_sub (Number_of_object a) (Number_of_object b).

Definition verifyTimestamp_callback (reply : ClientReply) : Outcome Date :=
  match reply_err reply with
  | Some err => callback_err (err_object err)
  | None =>
      match reply_data reply with
      | None => callback_err (err_string "Address not seen in the network")
      | Some data =>
          match txs data with
          | None | Some [] =>
              callback_err (err_string "Address not seen in the network")
          | Some l =>
              match Array_sort comparator l with
              | tx :: _ => callback_ok (new_Date (Num (time tx * 1000)))
              | [] =>
                  uncaught
                    (TypeError "Cannot read property 'time' of undefined")
              end
          end
      end
  end.

(** The request for the address of [this]. *)
Definition options (this : DocumentAddress) : Options := {|
  path := ("/address/" ++ address this ++ "?format=json")%string;
  retry := 0
|}.

(** [get] stands for the ledger index behind restify's [client.get]. *)
Definition verifyTimestamp (get : Options -> ClientReply)
    (this : DocumentAddress) : Outcome Date :=
  verifyTimestamp_callback (get (options this)).

(** *** The command line block *)

(** The options parsed by commander. *)
Record Program : Type := mkProgram {
  program_file : option string;
  program_verify : bool
}.

(** How the process ends: [process.exit(code)], the event loop running
    empty, an exception nobody caught, or never. *)
Inductive Termination : Type :=
| process_exit (code : Z)
| drained
| fatal (e : Error)
| running.

(** The exit code of the process; [fatal_code] is the code the runtime gives
    to an uncaught exception.  A process that never ends has none. *)
Definition exit_code (fatal_code : Z) (t : Termination) : option Z :=
  match t with
  | process_exit code => Some code
  | drained => Some 0%Z
  | fatal _ => Some fatal_code
  | running => None
  end.

(** The callback the command line passes to [generateAddressForFile]. *)
Definition main_callback (get : Options -> ClientReply) (verify : bool)
    (err : option ErrValue) (documentAddr : option DocumentAddress)
  : Termination :=
  match err, documentAddr with
  | Some _, _ => drained
  | None, None => fatal (TypeError "Cannot read property 'address' of undefined")
  | None, Some documentAddr =>
      if verify then
        match verifyTimestamp get documentAddr with
        | callback_err _ => process_exit 1
        | callback_ok _ => process_exit 0
        | uncaught e => fatal e
        | pending => running
        end
      else drained
  end.

(** The block run from the console.  A missing or empty [--file] is falsy.
    [help_exit] is what commander's [program.help()] does: [Some code] when
    it ends the process itself, [None] when it returns. *)
Definition main (help_exit : option Z) (fs : string -> ReadStream)
    (mem : nat -> byte) (get : Options -> ClientReply) (program : Program)
  : Termination :=
  match program_file program with
  | None | Some EmptyString =>
      match help_exit with
      | Some code => process_exit code
      | None => process_exit 1
      end
  | Some fileName =>
      match generateAddressForFile fs mem fileName with
      | callback_err err =>
          main_callback get (program_verify program) (Some err) None
      | callback_ok documentAddr =>
          main_callback get (program_verify program) None (Some documentAddr)
      | uncaught e => fatal e
      | pending => running
      end
  end.

(** ** The reference pipeline of the specification

    The address derivation as the specification words it, to compare with
    [generateAddress]. *)
Definition spec_h1 (digest : Buffer) : Buffer := RIPEMD160.hash digest.
Definition spec_h2 (digest : Buffer) : Buffer := x00 :: spec_h1 digest.
Definition spec_h3 (digest : Buffer) : Buffer := SHA256.hash (spec_h2 digest).
Definition spec_h4 (digest : Buffer) : Buffer := SHA256.hash (spec_h3 digest).
Definition spec_checksum (digest : Buffer) : Buffer := firstn 4 (spec_h4 digest).
Definition spec_h5 (digest : Buffer) : Buffer :=
  spec_h2 digest ++ spec_checksum digest.
Definition spec_address (digest : Buffer) : string :=
  bs58.encode (spec_h5 digest).

Definition deriveAddress (digest : Buffer) : DocumentAddress := {|
  address := spec_address digest;
  sha256 := toString_hex digest;
  detail := {|
    documentSHA256 := toString_hex digest;
    hash3 := toString_hex (spec_h1 digest);
    hash4 := toString_hex (spec_h2 digest);
    hash5 := toString_hex (spec_h3 digest);
    hash6 := toString_hex (spec_h4 digest);
    checksum := toString_hex (spec_checksum digest);
    hashWithChecksum := toString_hex (spec_h5 digest);
    base58Encode := spec_address digest
  |}
|}.

(** The digest of 32 zero bytes and its address, every field computed
    outside this development from the published hash functions. *)
Definition zero_digest : Buffer := repeat x00 32.

Definition zero_digest_address : DocumentAddress := {|
  address := "1L7YHmb2Qtk7MABJGhDfvmRLiLGGeZeMVY";
  sha256 := "0000000000000000000000000000000000000000000000000000000000000000";
  detail := {|
    documentSHA256 :=
      "0000000000000000000000000000000000000000000000000000000000000000";
    hash3 := "d1a70126ff7a149ca6f9b638db084480440ff842";
    hash4 := "00d1a70126ff7a149ca6f9b638db084480440ff842";
    hash5 := "3445e3971097a99b3f0cbf60e2e22f7997b75640ba164d829775eb9867bd4ee2";
    hash6 := "8b7a9b6f0d475e02652c3461482ac26e255624a74f0f4af085bff0de4093195d";
    checksum := "8b7a9b6f";
    hashWithChecksum := "00d1a70126ff7a149ca6f9b638db084480440ff8428b7a9b6f";
    base58Encode := "1L7YHmb2Qtk7MABJGhDfvmRLiLGGeZeMVY"
  |}
|}%string.

(** The earliest-seen policy of the specification: the minimum time among
    the transactions, as a calendar timestamp. *)
Definition min_time (l : list Tx) : option Z :=
  match l with
  | [] => None
  | tx :: l' => Some (fold_left Z.min (map time l') (time tx))
  end.

Definition earliest_timestamp (l : list Tx) : option Date :=
  option_map (fun t => new_Date (Num (t * 1000))) (min_time l).

(** A ledger that answers every request with the given transactions. *)
Definition ledger_with (l : list Tx) (_ : Options) : ClientReply :=
  {| reply_err := None; reply_data := Some {| txs := Some l |} |}.

(** A ledger that cannot be reached. *)
Definition ledger_down (e : Error) (_ : Options) : ClientReply :=
  {| reply_err := Some e; reply_data := None |}.

(** A ledger whose answer cannot be parsed: restify's JSON client notes the
    parse error in its log and hands over no error and the empty object. *)
Definition ledger_malformed (_ : Options) : ClientReply :=
  {| reply_err := None; reply_data := Some {| txs := None |} |}.

(** commander's [program.help()] writes the help and ends the process with
    [process.exit()], without a code: it does not return and the exit code
    is 0.  The package is a dependency outside the repository. *)
Definition commander_help_exit : option Z := Some 0%Z.




(** A file system in which no file can be opened. *)
Definition no_files (_ : string) : ReadStream :=
  {| stream_chunks := []; stream_failure := Some (SystemError "ENOENT") |}.

(** * Properties *)

(** ** Bytes *)

Lemma to_N_lt (b : byte) : Byte.to_N b < 256.
Proof. pose proof (Byte.to_N_bounded b). lia. Qed.

Lemma byte_of_to_N (b : byte) : byte_of_N (Byte.to_N b) = b.
Proof.
  unfold byte_of_N.
  rewrite N.mod_small by apply to_N_lt.
  now rewrite Byte.of_to_N.
Qed.

Lemma to_N_byte_of_N (n : N) : Byte.to_N (byte_of_N n) = n mod 256.
Proof.
  unfold byte_of_N.
  destruct (Byte.of_N (n mod 256)) as [b|] eqn:E.
  - now apply Byte.to_of_N.
  - apply Byte.of_N_None_iff in E.
    pose proof (N.mod_lt n 256). lia.
Qed.

Lemma bytes_of_Ns_of_bytes (b : Buffer) : bytes_of_Ns (Ns_of_bytes b) = b.
Proof.
  unfold bytes_of_Ns, Ns_of_bytes.
  induction b as [|x b IH]; simpl; [reflexivity|].
  now rewrite byte_of_to_N, IH.
Qed.

Lemma Ns_of_bytes_bounded (b : Buffer) : Forall (fun d => d < 256) (Ns_of_bytes b).
Proof.
  unfold Ns_of_bytes.
  induction b; simpl; constructor; auto using to_N_lt.
Qed.

(** ** Positional notation: digits and numbers determine each other *)

Module RadixFacts.
Import Radix.

Section Base.
Variable base : N.
Hypothesis base_ge_2 : 2 <= base.

Lemma digits_aux_acc fuel : forall n acc,
  digits_aux base fuel n acc = digits_aux base fuel n [] ++ acc.
Proof.
  induction fuel as [|fuel IH]; intros n acc; simpl; [reflexivity|].
  destruct (n =? 0); [reflexivity|].
  rewrite (IH _ (n mod base :: acc)), (IH _ [n mod base]).
  now rewrite <- app_assoc.
Qed.

Lemma div_base_lt_pow (n : N) (k : nat) :
  n < 2 ^ N.of_nat (S k) -> n / base < 2 ^ N.of_nat k.
Proof.
  intros Hn.
  rewrite Nat2N.inj_succ, N.pow_succ_r' in Hn.
  apply N.Div0.div_lt_upper_bound.
  assert (0 < 2 ^ N.of_nat k) by (apply N.neq_0_lt_0, N.pow_nonzero; lia).
  nia.
Qed.

Lemma digits_aux_fuel f1 : forall f2 n acc,
  n < 2 ^ N.of_nat f1 -> n < 2 ^ N.of_nat f2 ->
  digits_aux base f1 n acc = digits_aux base f2 n acc.
Proof.
  induction f1 as [|f1 IH]; intros f2 n acc H1 H2.
  - simpl in H1. assert (n = 0) by lia. subst n.
    destruct f2; reflexivity.
  - destruct f2 as [|f2].
    + simpl in H2. assert (n = 0) by lia. subst n. reflexivity.
    + simpl. destruct (n =? 0); [reflexivity|].
      apply IH; now apply div_base_lt_pow.
Qed.

Lemma size_fuel (n : N) : n < 2 ^ N.of_nat (N.to_nat (N.size n)).
Proof. rewrite N2Nat.id. apply N.size_gt. Qed.

Lemma to_digits_0 : to_digits base 0 = [].
Proof. reflexivity. Qed.

Lemma to_digits_step (n : N) :
  n <> 0 -> to_digits base n = to_digits base (n / base) ++ [n mod base].
Proof.
  intros Hn. unfold to_digits.
  pose proof (size_fuel n) as Hs.
  destruct (N.to_nat (N.size n)) as [|k] eqn:E.
  - simpl in Hs. lia.
  - simpl. apply N.eqb_neq in Hn. rewrite Hn.
    rewrite digits_aux_acc. f_equal.
    apply digits_aux_fuel.
    + now apply div_base_lt_pow.
    + apply size_fuel.
Qed.

Lemma of_digits_snoc (ds : list N) (d : N) :
  of_digits base (ds ++ [d]) = of_digits base ds * base + d.
Proof. unfold of_digits. now rewrite fold_left_app. Qed.

Lemma of_digits_zeros (z : nat) (ds : list N) :
  of_digits base (repeat 0 z ++ ds) = of_digits base ds.
Proof.
  induction z as [|z IH]; [reflexivity|].
  simpl. unfold of_digits in *. simpl. exact IH.
Qed.

Lemma of_to_digits (n : N) : of_digits base (to_digits base n) = n.
Proof.
  induction n as [n IH] using (well_founded_induction N.lt_wf_0).
  destruct (N.eq_dec n 0) as [->|Hn]; [reflexivity|].
  rewrite (to_digits_step n Hn), of_digits_snoc.
  rewrite IH by (apply N.div_lt; lia).
  pose proof (N.div_mod n base). lia.
Qed.

Lemma to_digits_bounded (n : N) :
  Forall (fun d => d < base) (to_digits base n).
Proof.
  induction n as [n IH] using (well_founded_induction N.lt_wf_0).
  destruct (N.eq_dec n 0) as [->|Hn]; [constructor|].
  rewrite (to_digits_step n Hn).
  apply Forall_app. split.
  - apply IH, N.div_lt; lia.
  - constructor; [|constructor]. apply N.mod_lt. lia.
Qed.

Lemma normal_snoc (ds : list N) (d : N) :
  normal ds -> ds <> [] -> normal (ds ++ [d]).
Proof. destruct ds; simpl; [congruence|auto]. Qed.

Lemma to_digits_nonempty (n : N) : n <> 0 -> to_digits base n <> [].
Proof.
  intros Hn. rewrite (to_digits_step n Hn).
  intros E. now apply app_eq_nil in E.
Qed.

Lemma to_digits_normal (n : N) : normal (to_digits base n).
Proof.
  induction n as [n IH] using (well_founded_induction N.lt_wf_0).
  destruct (N.eq_dec n 0) as [->|Hn]; [exact I|].
  rewrite (to_digits_step n Hn).
  destruct (N.eq_dec (n / base) 0) as [E|E].
  - rewrite E. simpl.
    pose proof (N.div_mod n base). lia.
  - apply normal_snoc.
    + apply IH, N.div_lt; lia.
    + now apply to_digits_nonempty.
Qed.

Lemma to_of_digits (ds : list N) :
  Forall (fun d => d < base) ds -> normal ds ->
  to_digits base (of_digits base ds) = ds.
Proof.
  induction ds as [|d ds IH] using rev_ind; intros Hb Hn; [reflexivity|].
  apply Forall_app in Hb. destruct Hb as [Hb Hd].
  inversion Hd as [|? ? Hlt _]; subst.
  rewrite of_digits_snoc.
  assert (Hds : to_digits base (of_digits base ds) = ds).
  { apply IH; [exact Hb|]. destruct ds; simpl in *; auto. }
  assert (Hnz : of_digits base ds * base + d <> 0).
  { destruct ds as [|x ds].
    - simpl in *. unfold of_digits. simpl. lia.
    - assert (of_digits base (x :: ds) <> 0).
      { intros E. rewrite E in Hds. discriminate. }
      nia. }
  rewrite (to_digits_step _ Hnz).
  rewrite N.div_add_l by lia.
  rewrite N.div_small, N.add_0_r by exact Hlt.
  rewrite N.add_comm, N.Div0.mod_add.
  rewrite N.mod_small by exact Hlt.
  now rewrite Hds.
Qed.

Lemma count_leading_zeros (z : nat) (ds : list N) :
  normal ds -> count_leading (N.eqb 0) (repeat 0 z ++ ds) = z.
Proof.
  intros Hn. induction z as [|z IH]; simpl.
  - destruct ds as [|d ds]; [reflexivity|]. simpl in *.
    destruct d; [congruence|reflexivity].
  - now rewrite IH.
Qed.

End Base.
End RadixFacts.

(** ** Base 58: decoding undoes encoding *)

Module bs58Facts.
Import Radix RadixFacts bs58.

Lemma alphabet_table :
  forallb (fun d => match digit_of_char (alphabet_char d) with
                    | Some d' => d' =? d
                    | None => false
                    end)
          (map N.of_nat (seq 0 58)) = true.
Proof. vm_compute. reflexivity. Qed.

Lemma digit_of_alphabet_char (d : N) :
  d < BASE -> digit_of_char (alphabet_char d) = Some d.
Proof.
  intros Hd.
  pose proof alphabet_table as T.
  rewrite forallb_forall in T.
  specialize (T d).
  destruct (digit_of_char (alphabet_char d)) as [d'|].
  - f_equal. apply N.eqb_eq, T.
    rewrite <- (N2Nat.id d). apply in_map, in_seq.
    unfold BASE in Hd. lia.
  - exfalso.
    assert (false = true); [|discriminate].
    apply T. rewrite <- (N2Nat.id d). apply in_map, in_seq.
    unfold BASE in Hd. lia.
Qed.

Lemma digits_of_alphabet_chars (ds : list N) :
  Forall (fun d => d < BASE) ds ->
  digits_of_chars (map alphabet_char ds) = Some ds.
Proof.
  induction 1 as [|d ds Hd _ IH]; [reflexivity|].
  cbn [map digits_of_chars].
  now rewrite digit_of_alphabet_char, IH.
Qed.

Lemma digits_of_ones (z : nat) (l : list ascii) (ds : list N) :
  digits_of_chars l = Some ds ->
  digits_of_chars (repeat "1"%char z ++ l) = Some (repeat 0 z ++ ds).
Proof.
  intros H. induction z as [|z IH]; [exact H|].
  cbn [repeat app digits_of_chars]. rewrite IH. reflexivity.
Qed.

Lemma zero_byte (x : byte) : is_zero_byte x = true -> x = x00.
Proof.
  unfold is_zero_byte. intros H. apply N.eqb_eq in H.
  rewrite <- (byte_of_to_N x), H. reflexivity.
Qed.

(** A buffer is its leading zero bytes followed by a part that does not
    start with a zero byte. *)
Lemma leading_zero_split (b : Buffer) :
  exists b', b = repeat x00 (count_leading is_zero_byte b) ++ b'
             /\ normal (Ns_of_bytes b').
Proof.
  induction b as [|x b [b' [E Hn]]].
  - exists []. split; [reflexivity|exact I].
  - cbn [count_leading].
    destruct (is_zero_byte x) eqn:Hx.
    + exists b'. split; [|exact Hn].
      rewrite (zero_byte x Hx). cbn [repeat app]. now rewrite <- E.
    + exists (x :: b). split; [reflexivity|].
      unfold is_zero_byte in Hx. apply N.eqb_neq in Hx. exact Hx.
Qed.

Lemma Ns_of_zero_bytes (z : nat) (b : Buffer) :
  Ns_of_bytes (repeat x00 z ++ b) = repeat 0 z ++ Ns_of_bytes b.
Proof.
  unfold Ns_of_bytes. rewrite map_app, map_repeat. reflexivity.
Qed.

Lemma base_58 : 2 <= BASE.
Proof. unfold BASE. lia. Qed.

Lemma base_256 : 2 <= 256.
Proof. lia. Qed.

Theorem decode_encode (b : Buffer) : decode (encode b) = Some b.
Proof.
  destruct (leading_zero_split b) as [b' [E Hn]].
  unfold decode, encode.
  rewrite list_ascii_of_string_of_list_ascii.
  rewrite (digits_of_ones _ _ (to_digits BASE (of_digits 256 (Ns_of_bytes b)))).
  2: { apply digits_of_alphabet_chars, to_digits_bounded, base_58. }
  cbv zeta.
  rewrite count_leading_zeros by apply to_digits_normal, base_58.
  rewrite (of_digits_zeros BASE), (of_to_digits BASE base_58).
  rewrite E at 2.
  rewrite Ns_of_zero_bytes, (of_digits_zeros 256).
  rewrite (to_of_digits 256 base_256 _ (Ns_of_bytes_bounded b') Hn).
  rewrite bytes_of_Ns_of_bytes. now rewrite <- E.
Qed.

(** A leading zero byte is rendered as a leading 1. *)
Lemma encode_zero_byte (b : Buffer) :
  encode (x00 :: b) = String "1"%char (encode b).
Proof. reflexivity. Qed.

End bs58Facts.

(** ** The hash functions: published test vectors and output lengths *)

Example sha256_abc :
  toString_hex (SHA256.hash (ascii_bytes "abc"))
  = "ba7816bf8f01cfea414140de5dae2223b00361a396177a9cb410ff61f20015ad"%string.
Proof. vm_compute. reflexivity. Qed.

Example sha256_two_blocks :
  toString_hex
    (SHA256.hash
       (ascii_bytes "abcdbcdecdefdefgefghfghighijhijkijkljklmklmnlmnomnopnopq"))
  = "248d6a61d20638b8e5c026930c3e6039a33ce45964ff2167f6ecedd419db06c1"%string.
Proof. vm_compute. reflexivity. Qed.

Example ripemd160_abc :
  toString_hex (RIPEMD160.hash (ascii_bytes "abc"))
  = "8eb208f7e05d987a9b044a8e98c6b087f15a0bfc"%string.
Proof. vm_compute. reflexivity. Qed.

Example ripemd160_two_blocks :
  toString_hex
    (RIPEMD160.hash
       (ascii_bytes "abcdbcdecdefdefgefghfghighijhijkijkljklmklmnlmnomnopnopq"))
  = "12a053384a9c0c88e405a06c27dcf49ada62eb2b"%string.
Proof. vm_compute. reflexivity. Qed.

Example bs58_hello :
  bs58.encode (ascii_bytes "Hello World!") = "2NEpo7TZRRrLZSi2U"%string.
Proof. vm_compute. reflexivity. Qed.

Lemma sha256_length (m : Buffer) : List.length (SHA256.hash m) = 32%nat.
Proof.
  unfold SHA256.hash. cbv zeta.
  generalize (fold_left SHA256.compress
                (chunks (List.length (SHA256.pad (Ns_of_bytes m))) 64
                        (SHA256.pad (Ns_of_bytes m))) SHA256.init).
  intros s. reflexivity.
Qed.

Lemma ripemd160_length (m : Buffer) : List.length (RIPEMD160.hash m) = 20%nat.
Proof.
  unfold RIPEMD160.hash. cbv zeta.
  generalize (fold_left RIPEMD160.compress
                (chunks (List.length (RIPEMD160.pad (Ns_of_bytes m))) 64
                        (RIPEMD160.pad (Ns_of_bytes m))) RIPEMD160.init).
  intros s. reflexivity.
Qed.

(** ** Buffers *)

Lemma Buffer_alloc_length (mem : nat -> byte) (n : nat) :
  List.length (Buffer_alloc mem n) = n.
Proof. unfold Buffer_alloc. now rewrite length_map, length_seq. Qed.

Lemma version_byte_value : ToUint8 (StringToNumber VERSION_BYTE) = x00.
Proof. reflexivity. Qed.

(** The allocated memory is overwritten completely: the result does not
    depend on what it held. *)
Lemma _addVersionByte_eq (mem : nat -> byte) (buffer : Buffer) :
  _addVersionByte mem buffer = Normal (x00 :: buffer).
Proof.
  unfold _addVersionByte. cbv zeta.
  rewrite version_byte_value, Nat.add_1_r.
  unfold Buffer_alloc. cbn [seq map Buffer_set].
  destruct buffer as [|b bs]; [reflexivity|].
  unfold Buffer_copy, bind.
  set (t := map mem (seq 1 (List.length (b :: bs)))).
  assert (Ht : List.length t = S (List.length bs)).
  { unfold t. now rewrite length_map, length_seq. }
  cbn [List.length]. rewrite Ht.
  cbn [Nat.leb Nat.sub]. rewrite Nat.min_id.
  change (firstn 1 (x00 :: t)) with [x00].
  change (S (List.length bs)) with (List.length (b :: bs)) at 1.
  rewrite (firstn_all (b :: bs)).
  change (skipn (1 + S (List.length bs)) (x00 :: t))
    with (skipn (S (List.length bs)) t).
  rewrite <- Ht, skipn_all, app_nil_r. reflexivity.
Qed.

Lemma _addChecksum_eq (hash checksum : Buffer) :
  _addChecksum hash checksum = hash ++ checksum.
Proof.
  unfold _addChecksum, Buffer_concat. cbn [List.concat].
  rewrite app_nil_r, <- length_app, Nat.sub_diag.
  cbn [repeat]. rewrite app_nil_r. apply firstn_all.
Qed.

Lemma Buffer_slice_prefix (buf : Buffer) (n : nat) :
  Buffer_slice buf 0 n = firstn n buf.
Proof. unfold Buffer_slice. now rewrite Nat.sub_0_r. Qed.

(** ** [generateAddress] is the reference pipeline *)

Lemma generateAddress_eq (mem : nat -> byte) (docHash : Buffer) :
  generateAddress mem docHash = Normal (deriveAddress docHash).
Proof.
  unfold generateAddress. cbv zeta.
  rewrite _addVersionByte_eq. unfold bind.
  rewrite _addChecksum_eq, Buffer_slice_prefix.
  reflexivity.
Qed.

Lemma spec_h2_length (d : Buffer) : List.length (spec_h2 d) = 21%nat.
Proof. unfold spec_h2, spec_h1. cbn [List.length]. now rewrite ripemd160_length. Qed.

Lemma spec_checksum_length (d : Buffer) : List.length (spec_checksum d) = 4%nat.
Proof.
  unfold spec_checksum, spec_h4.
  rewrite length_firstn, sha256_length. reflexivity.
Qed.

Lemma spec_h5_length (d : Buffer) : List.length (spec_h5 d) = 25%nat.
Proof.
  unfold spec_h5. now rewrite length_app, spec_h2_length, spec_checksum_length.
Qed.

Lemma spec_h5_body (d : Buffer) :
  firstn (List.length (spec_h5 d) - 4) (spec_h5 d) = spec_h2 d.
Proof.
  rewrite spec_h5_length. unfold spec_h5.
  change (25 - 4)%nat with (21 + 0)%nat.
  rewrite <- (spec_h2_length d), firstn_app_2. cbn [firstn]. apply app_nil_r.
Qed.

Lemma spec_h5_tail (d : Buffer) :
  skipn (List.length (spec_h5 d) - 4) (spec_h5 d) = spec_checksum d.
Proof.
  rewrite spec_h5_length. unfold spec_h5.
  change (25 - 4)%nat with 21%nat.
  rewrite <- (spec_h2_length d), skipn_app, skipn_all, Nat.sub_diag.
  reflexivity.
Qed.

Lemma decode_spec_address (d : Buffer) :
  bs58.decode (spec_address d) = Some (spec_h5 d).
Proof. apply bs58Facts.decode_encode. Qed.

(** C3: for every 32-byte digest [d], [generateAddress] returns the address
    [base58Encode (0x00 :: RIPEMD160 d ++ first 4 bytes of
    SHA256 (SHA256 (0x00 :: RIPEMD160 d)))], its [sha256] field is the digest
    in hex and its trace holds every intermediate value of the reference
    pipeline in hex; for the digest of 32 zero bytes every field equals the
    reference value computed independently. *)
Theorem generateAddress_reference :
  (forall (mem : nat -> byte) (d : Buffer),
     List.length d = 32%nat ->
     let h1 := RIPEMD160.hash d in
     let h2 := x00 :: h1 in
     let h3 := SHA256.hash h2 in
     let h4 := SHA256.hash h3 in
     let check := firstn 4 h4 in
     let h5 := h2 ++ check in
     generateAddress mem d
     = Normal {|
         address := bs58.encode h5;
         sha256 := toString_hex d;
         detail := {|
           documentSHA256 := toString_hex d;
           hash3 := toString_hex h1;
           hash4 := toString_hex h2;
           hash5 := toString_hex h3;
           hash6 := toString_hex h4;
           checksum := toString_hex check;
           hashWithChecksum := toString_hex h5;
           base58Encode := bs58.encode h5
         |}
       |}
     /\ generateAddress mem d = Normal (deriveAddress d))
  /\ (forall mem : nat -> byte,
        generateAddress mem zero_digest = Normal zero_digest_address).
Proof.
  split.
  - intros mem d _. cbv zeta. split; apply generateAddress_eq.
  - intros mem. rewrite generateAddress_eq. vm_compute. reflexivity.
Qed.

Lemma generateAddress_reference_witness :
  List.length zero_digest = 32%nat
  /\ generateAddress (fun _ => xff) zero_digest
     = Normal (deriveAddress zero_digest).
Proof.
  split; [reflexivity|].
  exact (proj2 (proj1 generateAddress_reference (fun _ => xff) zero_digest
                  eq_refl)).
Defined.

(** C4: for every 32-byte digest, decoding the derived address from base
    58, stripping the last 4 bytes, hashing the remaining 21 bytes twice
    with SHA-256 and taking the first 4 bytes gives the 4 stripped bytes. *)
Theorem checksum_valid (mem : nat -> byte) (d : Buffer) :
  List.length d = 32%nat ->
  exists a payload,
    generateAddress mem d = Normal a
    /\ bs58.decode (address a) = Some payload
    /\ List.length (firstn (List.length payload - 4) payload) = 21%nat
    /\ firstn 4 (SHA256.hash
                   (SHA256.hash (firstn (List.length payload - 4) payload)))
       = skipn (List.length payload - 4) payload.
Proof.
  intros _. exists (deriveAddress d), (spec_h5 d).
  split; [apply generateAddress_eq|].
  split; [apply decode_spec_address|].
  rewrite spec_h5_body, spec_h5_tail.
  split; [apply spec_h2_length|reflexivity].
Qed.

Lemma checksum_valid_witness :
  List.length zero_digest = 32%nat
  /\ exists a payload,
       generateAddress (fun _ => x2a) zero_digest = Normal a
       /\ bs58.decode (address a) = Some payload
       /\ List.length (firstn (List.length payload - 4) payload) = 21%nat
       /\ firstn 4 (SHA256.hash
                      (SHA256.hash (firstn (List.length payload - 4) payload)))
          = skipn (List.length payload - 4) payload.
Proof.
  split; [reflexivity|].
  apply (checksum_valid (fun _ => x2a) zero_digest). reflexivity.
Defined.

(** C5: for every 32-byte digest, the derived address decoded from base 58
    and without its last 4 bytes is a 21-byte value whose first byte is
    0x00. *)
Theorem version_byte_first (mem : nat -> byte) (d : Buffer) :
  List.length d = 32%nat ->
  exists a payload,
    generateAddress mem d = Normal a
    /\ bs58.decode (address a) = Some payload
    /\ List.length (firstn (List.length payload - 4) payload) = 21%nat
    /\ nth_error (firstn (List.length payload - 4) payload) 0 = Some x00.
Proof.
  intros _. exists (deriveAddress d), (spec_h5 d).
  split; [apply generateAddress_eq|].
  split; [apply decode_spec_address|].
  rewrite spec_h5_body.
  split; [apply spec_h2_length|reflexivity].
Qed.

Lemma version_byte_first_witness :
  List.length (repeat x01 32) = 32%nat
  /\ exists a payload,
       generateAddress (fun _ => xff) (repeat x01 32) = Normal a
       /\ bs58.decode (address a) = Some payload
       /\ List.length (firstn (List.length payload - 4) payload) = 21%nat
       /\ nth_error (firstn (List.length payload - 4) payload) 0 = Some x00.
Proof.
  split; [reflexivity|].
  apply (version_byte_first (fun _ => xff) (repeat x01 32)). reflexivity.
Defined.

(** C6: address derivation is deterministic: two runs of [generateAddress]
    on equal digest bytes, whatever the freshly allocated buffers held,
    both return, with identical address strings, identical sha256 fields
    and identical traces. *)
Theorem generateAddress_deterministic
    (mem1 mem2 : nat -> byte) (d1 d2 : Buffer) :
  d1 = d2 ->
  exists a1 a2,
    generateAddress mem1 d1 = Normal a1
    /\ generateAddress mem2 d2 = Normal a2
    /\ address a1 = address a2
    /\ sha256 a1 = sha256 a2
    /\ detail a1 = detail a2.
Proof.
  intros <-. exists (deriveAddress d1), (deriveAddress d1).
  rewrite !generateAddress_eq. repeat split.
Qed.

Lemma generateAddress_deterministic_witness :
  zero_digest = repeat x00 32
  /\ exists a1 a2,
       generateAddress (fun _ => x00) zero_digest = Normal a1
       /\ generateAddress (fun _ => xff) (repeat x00 32) = Normal a2
       /\ address a1 = address a2
       /\ sha256 a1 = sha256 a2
       /\ detail a1 = detail a2.
Proof.
  split; [reflexivity|].
  apply (generateAddress_deterministic
           (fun _ => x00) (fun _ => xff) zero_digest (repeat x00 32)).
  reflexivity.
Defined.

(** C9: for every 32-byte digest the derived address begins with the
    character 1: the version byte 0x00 leads the 25-byte value, and base 58
    renders a leading zero byte as 1. *)
Theorem address_starts_with_1 (mem : nat -> byte) (d : Buffer) :
  List.length d = 32%nat ->
  exists a rest payload,
    generateAddress mem d = Normal a
    /\ address a = bs58.encode (x00 :: payload)
    /\ List.length (x00 :: payload) = 25%nat
    /\ address a = String "1"%char rest.
Proof.
  intros _.
  exists (deriveAddress d),
         (bs58.encode (spec_h1 d ++ spec_checksum d)),
         (spec_h1 d ++ spec_checksum d).
  split; [apply generateAddress_eq|].
  split; [reflexivity|].
  split; [apply (spec_h5_length d)|].
  apply bs58Facts.encode_zero_byte.
Qed.

Lemma address_starts_with_1_witness :
  List.length zero_digest = 32%nat
  /\ exists a rest payload,
       generateAddress (fun _ => x07) zero_digest = Normal a
       /\ address a = bs58.encode (x00 :: payload)
       /\ List.length (x00 :: payload) = 25%nat
       /\ address a = String "1"%char rest.
Proof.
  split; [reflexivity|].
  apply (address_starts_with_1 (fun _ => x07) zero_digest). reflexivity.
Defined.

(** C10: [generateAddress] has no check of the length of its input: for a
    buffer of any length, the empty one included, it returns a
    [DocumentAddress] and raises nothing, and the address decodes to the
    25 bytes made of 0x00, the RIPEMD-160 of the given bytes and the 4-byte
    checksum. *)
Theorem generateAddress_any_length :
  (forall (mem : nat -> byte) (docHash : Buffer),
     exists a payload,
       generateAddress mem docHash = Normal a
       /\ bs58.decode (address a) = Some payload
       /\ payload
          = (x00 :: RIPEMD160.hash docHash)
              ++ firstn 4 (SHA256.hash
                             (SHA256.hash (x00 :: RIPEMD160.hash docHash)))
       /\ List.length payload = 25%nat)
  /\ (forall mem : nat -> byte,
        exists a, generateAddress mem [] = Normal a
                  /\ address a = "1FEDQP2D5zmpRXRG5zQn7vYVs4JVHinjEv"%string).
Proof.
  split.
  - intros mem docHash. exists (deriveAddress docHash), (spec_h5 docHash).
    split; [apply generateAddress_eq|].
    split; [apply decode_spec_address|].
    split; [reflexivity|apply spec_h5_length].
  - intros mem. exists (deriveAddress []).
    split; [apply generateAddress_eq|].
    vm_compute. reflexivity.
Qed.

(** ** [verifyTimestamp] *)

Lemma comparator_NaN (a b : Tx) : comparator a b = NaN.
Proof. reflexivity. Qed.

Lemma sort_insert_comparator (x : Tx) (l : list Tx) :
  sort_insert comparator x l = l ++ [x].
Proof.
  induction l as [|y l IH]; [reflexivity|].
  cbn [sort_insert]. unfold SortCompare. rewrite comparator_NaN.
  cbn [Z.ltb Z.compare]. now rewrite IH.
Qed.

(** With this comparator the sort leaves the array as it was. *)
Lemma Array_sort_comparator (l : list Tx) : Array_sort comparator l = l.
Proof.
  unfold Array_sort.
  assert (H : forall acc,
             fold_left (fun acc x => sort_insert comparator x acc) l acc
             = acc ++ l).
  { induction l as [|x l IH]; intros acc; cbn [fold_left].
    - now rewrite app_nil_r.
    - rewrite IH, sort_insert_comparator, <- app_assoc. reflexivity. }
  apply H.
Qed.

(** The timestamp handed to the callback is that of the first transaction
    of the response. *)
Lemma verifyTimestamp_first (this : DocumentAddress) (tx : Tx) (l : list Tx) :
  verifyTimestamp (ledger_with (tx :: l)) this
  = callback_ok (new_Date (Num (time tx * 1000))).
Proof.
  unfold verifyTimestamp, ledger_with, verifyTimestamp_callback.
  cbn [reply_err reply_data txs].
  now rewrite Array_sort_comparator.
Qed.

(** C1: on the response with transactions at times 500, 100 and 300 the
    code calls back with the timestamp of 500, the first transaction of the
    response, where the earliest-seen policy asks for the timestamp of
    100. *)
Theorem verifyTimestamp_500_100_300 (this : DocumentAddress) :
  verifyTimestamp (ledger_with [mkTx 500; mkTx 100; mkTx 300]) this
  = callback_ok (DateValue 500000)
  /\ earliest_timestamp [mkTx 500; mkTx 100; mkTx 300]
     = Some (DateValue 100000)
  /\ verifyTimestamp (ledger_with [mkTx 500; mkTx 100; mkTx 300]) this
     <> callback_ok (DateValue 100000).
Proof.
  split; [reflexivity|]. split; [reflexivity|]. discriminate.
Qed.

(** C7: for a well-formed ledger response without transactions
    [verifyTimestamp] calls back with the error string "Address not seen in
    the network" and no timestamp.  A failure the client reports as an
    error calls back with the error object of the client, which the caller
    tells from the string by its type.  A body that cannot be parsed is not
    told apart: it arrives without error, as an object without [txs], and
    gets the same string. *)
Theorem verifyTimestamp_not_seen (get : Options -> ClientReply)
    (this : DocumentAddress) :
  reply_err (get (options this)) = None ->
  reply_data (get (options this)) = Some {| txs := Some [] |} ->
  verifyTimestamp get this
  = callback_err (err_string "Address not seen in the network")
  /\ (forall (get' : Options -> ClientReply) (e : Error),
        reply_err (get' (options this)) = Some e ->
        verifyTimestamp get' this = callback_err (err_object e)
        /\ verifyTimestamp get' this <> verifyTimestamp get this
        /\ typeof (err_object e)
           <> typeof (err_string "Address not seen in the network"))
  /\ (forall get' : Options -> ClientReply,
        reply_err (get' (options this)) = None ->
        reply_data (get' (options this)) = None
        \/ reply_data (get' (options this)) = Some {| txs := None |} ->
        verifyTimestamp get' this = verifyTimestamp get this).
Proof.
  intros Herr Hdata.
  assert (Hnot : verifyTimestamp get this
                 = callback_err (err_string "Address not seen in the network")).
  { unfold verifyTimestamp, verifyTimestamp_callback.
    now rewrite Herr, Hdata. }
  split; [exact Hnot|]. split.
  - intros get' e He.
    assert (Hobj : verifyTimestamp get' this = callback_err (err_object e)).
    { unfold verifyTimestamp, verifyTimestamp_callback. now rewrite He. }
    split; [exact Hobj|].
    split; [rewrite Hobj, Hnot|]; discriminate.
  - intros get' He Hd. rewrite Hnot.
    unfold verifyTimestamp, verifyTimestamp_callback. rewrite He.
    destruct Hd as [-> | ->]; reflexivity.
Qed.

Lemma verifyTimestamp_not_seen_witness :
  reply_err (ledger_with [] (options zero_digest_address)) = None
  /\ reply_data (ledger_with [] (options zero_digest_address))
     = Some {| txs := Some [] |}
  /\ verifyTimestamp (ledger_with []) zero_digest_address
     = callback_err (err_string "Address not seen in the network")
  /\ verifyTimestamp
       (ledger_down (RestError 503 "Service Unavailable")) zero_digest_address
     = callback_err (err_object (RestError 503 "Service Unavailable")).
Proof.
  split; [reflexivity|]. split; [reflexivity|].
  pose proof (verifyTimestamp_not_seen (ledger_with []) zero_digest_address
                eq_refl eq_refl) as [Hnot [Herr _]].
  split; [exact Hnot|].
  exact (proj1 (Herr (ledger_down (RestError 503 "Service Unavailable"))
                  (RestError 503 "Service Unavailable") eq_refl)).
Defined.

(** A parse failure and an address without transactions reach the caller
    as the same error: the two are not distinguishable. *)
Lemma verifyTimestamp_parse_failure_same_error :
  verifyTimestamp ledger_malformed zero_digest_address
  = callback_err (err_string "Address not seen in the network")
  /\ verifyTimestamp (ledger_with []) zero_digest_address
     = callback_err (err_string "Address not seen in the network")
  /\ ~ (verifyTimestamp ledger_malformed zero_digest_address
        <> verifyTimestamp (ledger_with []) zero_digest_address).
Proof.
  split; [reflexivity|]. split; [reflexivity|].
  intros H. apply H. reflexivity.
Qed.

(** X16: A response without a body or without a transaction list is answered
    the same way. *)
Lemma verifyTimestamp_callback_no_list (reply : ClientReply) :
  reply_err reply = None ->
  reply_data reply = None \/ reply_data reply = Some {| txs := None |} ->
  verifyTimestamp_callback reply
  = callback_err (err_string "Address not seen in the network").
Proof.
  intros Herr [H|H]; unfold verifyTimestamp_callback; now rewrite Herr, H.
Qed.

(** ** [_sha256File] *)

Lemma _sha256File_run_chunks (chunks : list Buffer) (rest : list StreamEvent) :
  forall sha256sum,
    _sha256File_run _sha256File_listeners (map ev_data chunks ++ rest) sha256sum
    = _sha256File_run _sha256File_listeners rest
        (sha256sum ++ List.concat chunks).
Proof.
  induction chunks as [|c chunks IH]; intros sha256sum.
  - cbn [map app List.concat]. now rewrite app_nil_r.
  - cbn [map app List.concat _sha256File_run].
    change (has_listener _sha256File_listeners on_data) with true.
    cbv iota. now rewrite IH, app_assoc.
Qed.

(** A stream that ends delivers the digest of all its bytes. *)
Lemma _sha256File_end (fs : string -> ReadStream) (fileName : string) :
  stream_failure (fs fileName) = None ->
  _sha256File fs fileName
  = callback_ok (SHA256.hash (List.concat (stream_chunks (fs fileName)))).
Proof.
  intros H. unfold _sha256File, stream_events.
  rewrite _sha256File_run_chunks, H. reflexivity.
Qed.

(** A stream that fails, at once or after some chunks, has its error
    thrown by the emitter: the callback is never called, neither with the
    error nor with a digest. *)
Lemma _sha256File_error (fs : string -> ReadStream) (fileName : string)
    (e : Error) :
  stream_failure (fs fileName) = Some e ->
  _sha256File fs fileName = uncaught e.
Proof.
  intros H. unfold _sha256File, stream_events.
  rewrite _sha256File_run_chunks, H. reflexivity.
Qed.

(** C2: for a file that cannot be opened, and for a read that fails after
    two chunks, [_sha256File] does not call its callback at all: the error
    is thrown as an uncaught exception, where the specification has the
    callback receive it.  No digest is delivered either. *)
Theorem _sha256File_unreadable :
  _sha256File no_files "missing.txt" = uncaught (SystemError "ENOENT")
  /\ _sha256File
       (fun _ => {| stream_chunks := [[x01; x02]; [x03]];
                    stream_failure := Some (SystemError "EIO") |})
       "broken.txt"
     = uncaught (SystemError "EIO")
  /\ (forall err, _sha256File no_files "missing.txt" <> callback_err err)
  /\ (forall bytes, _sha256File no_files "missing.txt" <> callback_ok bytes).
Proof.
  split; [reflexivity|]. split; [reflexivity|].
  split; intros; discriminate.
Qed.

(** ** The command line block *)

Lemma generateAddressForFile_end (fs : string -> ReadStream)
    (mem : nat -> byte) (fileName : string) :
  stream_failure (fs fileName) = None ->
  generateAddressForFile fs mem fileName
  = callback_ok
      (deriveAddress (SHA256.hash (List.concat (stream_chunks (fs fileName))))).
Proof.
  intros H. unfold generateAddressForFile.
  rewrite (_sha256File_end _ _ H). unfold waterfall.
  now rewrite generateAddress_eq.
Qed.

Lemma generateAddressForFile_error (fs : string -> ReadStream)
    (mem : nat -> byte) (fileName : string) (e : Error) :
  stream_failure (fs fileName) = Some e ->
  generateAddressForFile fs mem fileName = uncaught e.
Proof.
  intros H. unfold generateAddressForFile.
  now rewrite (_sha256File_error _ _ _ H).
Qed.

(** Without [--verify] a readable file ends the process with code 0. *)
Lemma main_success (help_exit : option Z) (fs : string -> ReadStream)
    (mem : nat -> byte) (get : Options -> ClientReply)
    (c : ascii) (f : string) (fatal_code : Z) :
  stream_failure (fs (String c f)) = None ->
  exit_code fatal_code
    (main help_exit fs mem get
       {| program_file := Some (String c f); program_verify := false |})
  = Some 0%Z.
Proof.
  intros H. unfold main. cbn [program_file program_verify].
  now rewrite (generateAddressForFile_end _ _ _ H).
Qed.

(** With [--verify] the exit code is 0 when a timestamp is found and 1
    when the verification calls back with an error. *)
Lemma main_verify (help_exit : option Z) (fs : string -> ReadStream)
    (mem : nat -> byte) (get : Options -> ClientReply)
    (c : ascii) (f : string) (fatal_code : Z) :
  stream_failure (fs (String c f)) = None ->
  let a := deriveAddress
             (SHA256.hash (List.concat (stream_chunks (fs (String c f))))) in
  let t := main help_exit fs mem get
             {| program_file := Some (String c f); program_verify := true |} in
  (forall date, verifyTimestamp get a = callback_ok date ->
                exit_code fatal_code t = Some 0%Z)
  /\ (forall err, verifyTimestamp get a = callback_err err ->
                  exit_code fatal_code t = Some 1%Z).
Proof.
  intros H a t. unfold t, main. cbn [program_file program_verify].
  rewrite (generateAddressForFile_end _ _ _ H). fold a.
  unfold main_callback.
  split; intros x Hx; now rewrite Hx.
Qed.

(** A missing [--file] reaches [process.exit(1)] when [program.help()]
    returns. *)
Lemma main_missing_file (fs : string -> ReadStream) (mem : nat -> byte)
    (get : Options -> ClientReply) (verify : bool) (fatal_code : Z) :
  exit_code fatal_code
    (main None fs mem get {| program_file := None; program_verify := verify |})
  = Some 1%Z.
Proof. reflexivity. Qed.

(** When [program.help()] ends the process itself, its code is the exit
    code and [process.exit(1)] is not reached. *)
Lemma main_missing_file_help (fs : string -> ReadStream) (mem : nat -> byte)
    (get : Options -> ClientReply) (verify : bool) (code fatal_code : Z) :
  exit_code fatal_code
    (main (Some code) fs mem get
       {| program_file := None; program_verify := verify |})
  = Some code.
Proof. reflexivity. Qed.

(** C8: without [--file] the command line prints the help through
    [program.help()], which ends the process with code 0: the
    [process.exit(1)] behind it is not reached, and the exit code is 0 where
    the specification asks for 1. *)
Theorem main_no_file_exit_code :
  (forall (fs : string -> ReadStream) (mem : nat -> byte)
          (get : Options -> ClientReply) (verify : bool) (fatal_code : Z),
     main commander_help_exit fs mem get
       {| program_file := None; program_verify := verify |}
     = process_exit 0
     /\ exit_code fatal_code
          (main commander_help_exit fs mem get
             {| program_file := None; program_verify := verify |})
        = Some 0%Z)
  /\ exit_code 1
       (main commander_help_exit no_files (fun _ => x00) (ledger_with [])
          {| program_file := None; program_verify := false |})
     <> Some 1%Z.
Proof.
  split; [intros; split; reflexivity|discriminate].
Qed.

(** * Further properties of the program *)

(** ** Hexadecimal strings *)

Lemma toString_hex_app (a b : Buffer) :
  toString_hex (a ++ b) = (toString_hex a ++ toString_hex b)%string.
Proof.
  induction a as [|x a IH]; [reflexivity|].
  cbn [app toString_hex String.append]. now rewrite IH.
Qed.

Lemma toString_hex_length (b : Buffer) :
  String.length (toString_hex b) = (2 * List.length b)%nat.
Proof.
  induction b as [|x b IH]; [reflexivity|].
  cbn [toString_hex String.length List.length]. rewrite IH. lia.
Qed.

Lemma hex_digit_table :
  forallb (fun n => match digit_value (hex_digit n) with
                    | Some m => m =? n
                    | None => false
                    end)
          (map N.of_nat (seq 0 16)) = true.
Proof. vm_compute. reflexivity. Qed.

(** A hexadecimal digit is read back as its value. *)
Lemma digit_value_hex_digit (n : N) :
  n < 16 -> digit_value (hex_digit n) = Some n.
Proof.
  intros Hn.
  pose proof hex_digit_table as T.
  rewrite forallb_forall in T.
  assert (Hin : In n (map N.of_nat (seq 0 16))).
  { rewrite <- (N2Nat.id n). apply in_map, in_seq. lia. }
  specialize (T n Hin).
  destruct (digit_value (hex_digit n)) as [m|]; [|discriminate].
  f_equal. now apply N.eqb_eq.
Qed.

Lemma hex_digit_inj (n m : N) :
  n < 16 -> m < 16 -> hex_digit n = hex_digit m -> n = m.
Proof.
  intros Hn Hm E.
  assert (H : Some n = Some m).
  { rewrite <- (digit_value_hex_digit n Hn), <- (digit_value_hex_digit m Hm).
    now rewrite E. }
  now inversion H.
Qed.

Lemma byte_hex_inj (x y : byte) :
  hex_digit (Byte.to_N x / 16) = hex_digit (Byte.to_N y / 16) ->
  hex_digit (Byte.to_N x mod 16) = hex_digit (Byte.to_N y mod 16) ->
  x = y.
Proof.
  intros Hhi Hlo.
  pose proof (to_N_lt x) as Hx. pose proof (to_N_lt y) as Hy.
  apply hex_digit_inj in Hhi;
    [|apply N.Div0.div_lt_upper_bound; lia|apply N.Div0.div_lt_upper_bound; lia].
  apply hex_digit_inj in Hlo; [|apply N.mod_lt; lia|apply N.mod_lt; lia].
  assert (E : Byte.to_N x = Byte.to_N y).
  { rewrite (N.div_mod (Byte.to_N x) 16), (N.div_mod (Byte.to_N y) 16) by lia.
    now rewrite Hhi, Hlo. }
  rewrite <- (byte_of_to_N x), <- (byte_of_to_N y). now rewrite E.
Qed.

Lemma toString_hex_inj (a : Buffer) :
  forall b, toString_hex a = toString_hex b -> a = b.
Proof.
  induction a as [|x a IH]; intros [|y b] E; cbn [toString_hex] in E;
    try discriminate; [reflexivity|].
  inversion E as [[Hhi Hlo Hrest]].
  f_equal; [now apply byte_hex_inj|now apply IH].
Qed.

(** ** The helpers of the address pipeline *)

(** X1: [_addVersionByte] never raises, whatever the length of the buffer and
    whatever the allocated memory held: the result is one byte longer, its
    first byte is 0x00 and the rest is the buffer, unshifted. *)
Theorem _addVersionByte_layout (mem : nat -> byte) (buffer : Buffer) :
  exists buf,
    _addVersionByte mem buffer = Normal buf
    /\ List.length buf = (List.length buffer + 1)%nat
    /\ nth_error buf 0 = Some x00
    /\ (forall i, nth_error buf (S i) = nth_error buffer i)
    /\ (forall mem', _addVersionByte mem' buffer = Normal buf).
Proof.
  exists (x00 :: buffer).
  split; [apply _addVersionByte_eq|].
  split; [cbn [List.length]; lia|].
  split; [reflexivity|].
  split; [reflexivity|].
  intros mem'. apply _addVersionByte_eq.
Qed.

(** X2: [_addChecksum] neither cuts nor fills: the result has the two lengths
    added, starts with the hash and ends with the checksum. *)
Theorem _addChecksum_layout (hash checksum : Buffer) :
  List.length (_addChecksum hash checksum)
  = (List.length hash + List.length checksum)%nat
  /\ firstn (List.length hash) (_addChecksum hash checksum) = hash
  /\ skipn (List.length hash) (_addChecksum hash checksum) = checksum.
Proof.
  rewrite _addChecksum_eq.
  split; [apply length_app|].
  split.
  - rewrite firstn_app, Nat.sub_diag, firstn_all. cbn [firstn].
    apply app_nil_r.
  - rewrite skipn_app, Nat.sub_diag, skipn_all. reflexivity.
Qed.

(** X3: The two hash helpers return 20 and 32 bytes for a buffer of any
    length, so the value that is encoded always has 25 bytes. *)
Theorem hash_helper_lengths (buffer : Buffer) :
  List.length (_ripemd160 buffer) = 20%nat
  /\ List.length (_sha256 buffer) = 32%nat
  /\ List.length (Buffer_slice (_sha256 buffer) 0 4) = 4%nat.
Proof.
  split; [apply ripemd160_length|].
  split; [apply sha256_length|].
  rewrite Buffer_slice_prefix, length_firstn.
  unfold _sha256. now rewrite sha256_length.
Qed.

(** ** The trace of [generateAddress] *)

(** X4: The fields of the trace fit together: [hash4] is "00" followed by
    [hash3], [hashWithChecksum] is [hash4] followed by [checksum],
    [checksum] is the first eight characters of [hash6], and the address
    and digest of the result are the ones of the trace. *)
Theorem generateAddress_trace_consistent (mem : nat -> byte) (docHash : Buffer) :
  exists a,
    generateAddress mem docHash = Normal a
    /\ hash4 (detail a) = ("00" ++ hash3 (detail a))%string
    /\ hashWithChecksum (detail a)
       = (hash4 (detail a) ++ checksum (detail a))%string
    /\ checksum (detail a) = substring 0 8 (hash6 (detail a))
    /\ base58Encode (detail a) = address a
    /\ documentSHA256 (detail a) = sha256 a.
Proof.
  exists (deriveAddress docHash).
  split; [apply generateAddress_eq|].
  cbn [deriveAddress detail address sha256 hash3 hash4 hash6 checksum
       hashWithChecksum base58Encode documentSHA256].
  split; [reflexivity|].
  split; [unfold spec_h5; apply toString_hex_app|].
  split; [|split; reflexivity].
  unfold spec_checksum.
  pose proof (sha256_length (spec_h3 docHash)) as Hl.
  fold (spec_h4 docHash) in Hl.
  destruct (spec_h4 docHash) as [|b0 [|b1 [|b2 [|b3 rest]]]];
    try discriminate Hl.
  cbn [firstn toString_hex substring].
  destruct (toString_hex rest); reflexivity.
Qed.

(** X5: The fields of the trace have fixed lengths, but for the digest, which
    has two characters for every byte given. *)
Theorem generateAddress_trace_lengths (mem : nat -> byte) (docHash : Buffer) :
  exists a,
    generateAddress mem docHash = Normal a
    /\ String.length (sha256 a) = (2 * List.length docHash)%nat
    /\ String.length (hash3 (detail a)) = 40%nat
    /\ String.length (hash4 (detail a)) = 42%nat
    /\ String.length (hash5 (detail a)) = 64%nat
    /\ String.length (hash6 (detail a)) = 64%nat
    /\ String.length (checksum (detail a)) = 8%nat
    /\ String.length (hashWithChecksum (detail a)) = 50%nat.
Proof.
  exists (deriveAddress docHash).
  split; [apply generateAddress_eq|].
  cbn [deriveAddress detail sha256 hash3 hash4 hash5 hash6 checksum
       hashWithChecksum].
  rewrite !toString_hex_length.
  rewrite spec_h2_length, spec_checksum_length, spec_h5_length.
  unfold spec_h1, spec_h3, spec_h4.
  rewrite ripemd160_length, !sha256_length.
  repeat split; reflexivity.
Qed.

(** X6: Two digests have the same address exactly when they have the same
    RIPEMD-160: nothing else of the digest enters the address. *)
Theorem generateAddress_address_iff (mem1 mem2 : nat -> byte)
    (docHash1 docHash2 : Buffer) :
  exists a1 a2,
    generateAddress mem1 docHash1 = Normal a1
    /\ generateAddress mem2 docHash2 = Normal a2
    /\ (address a1 = address a2
        <-> _ripemd160 docHash1 = _ripemd160 docHash2).
Proof.
  exists (deriveAddress docHash1), (deriveAddress docHash2).
  split; [apply generateAddress_eq|].
  split; [apply generateAddress_eq|].
  cbn [deriveAddress address]. unfold _ripemd160. split.
  - intros E.
    assert (H : Some (spec_h5 docHash1) = Some (spec_h5 docHash2)).
    { rewrite <- !decode_spec_address. now rewrite E. }
    apply (f_equal (fun o => match o with Some b => b | None => [] end)) in H.
    assert (H2 : spec_h2 docHash1 = spec_h2 docHash2).
    { rewrite <- !spec_h5_body, !spec_h5_length. now rewrite H. }
    apply (f_equal (@tl byte)) in H2. exact H2.
  - intros E.
    unfold spec_address, spec_h5, spec_checksum, spec_h4, spec_h3, spec_h2,
      spec_h1.
    now rewrite E.
Qed.

(** X7: The [sha256] field identifies the digest: two results have the same
    field exactly when the digests are the same bytes. *)
Theorem generateAddress_sha256_iff (mem1 mem2 : nat -> byte)
    (docHash1 docHash2 : Buffer) :
  exists a1 a2,
    generateAddress mem1 docHash1 = Normal a1
    /\ generateAddress mem2 docHash2 = Normal a2
    /\ (sha256 a1 = sha256 a2 <-> docHash1 = docHash2).
Proof.
  exists (deriveAddress docHash1), (deriveAddress docHash2).
  split; [apply generateAddress_eq|].
  split; [apply generateAddress_eq|].
  cbn [deriveAddress sha256]. split.
  - apply toString_hex_inj.
  - now intros ->.
Qed.

(** ** The shape of an address *)

Section DigitCount.
Import Radix RadixFacts.
Variable base : N.
Hypothesis base_ge_2 : 2 <= base.

(** A number has at most [k] digits exactly when it is below the [k]-th
    power of the base. *)
Lemma digits_length_le (k : nat) : forall n,
  (List.length (to_digits base n) <= k)%nat <-> n < base ^ N.of_nat k.
Proof.
  induction k as [|k IH]; intros n.
  - cbn [N.of_nat]. rewrite N.pow_0_r.
    destruct (N.eq_dec n 0) as [->|Hn].
    + rewrite to_digits_0. cbn [List.length]. split; intros; lia.
    + pose proof (to_digits_nonempty base base_ge_2 n Hn) as Hne.
      destruct (to_digits base n); [congruence|].
      cbn [List.length]. split; intros; lia.
  - rewrite Nat2N.inj_succ, N.pow_succ_r'.
    destruct (N.eq_dec n 0) as [->|Hn].
    + rewrite to_digits_0. cbn [List.length].
      assert (0 < base ^ N.of_nat k) by (apply N.neq_0_lt_0, N.pow_nonzero; lia).
      split; intros; nia.
    + rewrite (to_digits_step base base_ge_2 n Hn), length_app.
      cbn [List.length].
      specialize (IH (n / base)).
      pose proof (N.div_mod n base) as Hdm.
      pose proof (N.mod_lt n base) as Hml.
      split; intros H.
      * assert (Hq : n / base < base ^ N.of_nat k) by (apply IH; lia). nia.
      * assert (Hq : n / base < base ^ N.of_nat k).
        { apply N.Div0.div_lt_upper_bound. lia. }
        apply IH in Hq. lia.
Qed.

End DigitCount.

Lemma string_of_list_ascii_length (l : list ascii) :
  String.length (string_of_list_ascii l) = List.length l.
Proof. induction l as [|c l IH]; cbn; [reflexivity|now rewrite IH]. Qed.

Lemma pow_256_58_table :
  forallb (fun m => 256 ^ N.of_nat m <=? 58 ^ N.of_nat (m + 9)) (seq 0 25) = true.
Proof. vm_compute. reflexivity. Qed.

Lemma pow_256_58 (m : nat) :
  (m <= 24)%nat -> 256 ^ N.of_nat m <= 58 ^ N.of_nat (m + 9).
Proof.
  intros Hm. pose proof pow_256_58_table as T.
  rewrite forallb_forall in T.
  apply N.leb_le, T, in_seq. lia.
Qed.

(** The length of an encoding: one character for every leading zero byte
    and the base-58 digits of the rest, which are at least as many as its
    bytes. *)
Lemma encode_length (b : Buffer) :
  exists (z m : nat) (n : N),
    List.length b = (z + m)%nat
    /\ z = Radix.count_leading bs58.is_zero_byte b
    /\ String.length (bs58.encode b)
       = (z + List.length (Radix.to_digits 58 n))%nat
    /\ List.length (Radix.to_digits 256 n) = m.
Proof.
  destruct (bs58Facts.leading_zero_split b) as [b' [E Hn]].
  exists (Radix.count_leading bs58.is_zero_byte b), (List.length b'),
         (Radix.of_digits 256 (Ns_of_bytes b)).
  split; [rewrite E at 1; now rewrite length_app, repeat_length|].
  split; [reflexivity|].
  split.
  - unfold bs58.encode. cbv zeta.
    rewrite string_of_list_ascii_length, length_app, repeat_length, length_map.
    reflexivity.
  - rewrite E at 1.
    rewrite bs58Facts.Ns_of_zero_bytes, (RadixFacts.of_digits_zeros 256).
    rewrite (RadixFacts.to_of_digits 256 bs58Facts.base_256 _
               (Ns_of_bytes_bounded b') Hn).
    unfold Ns_of_bytes. apply length_map.
Qed.

Lemma encode_length_lower (b : Buffer) :
  (List.length b <= String.length (bs58.encode b))%nat.
Proof.
  destruct (encode_length b) as (z & m & n & Hb & _ & Hlen & Hm).
  rewrite Hb, Hlen. apply Nat.add_le_mono_l.
  destruct m as [|m]; [lia|].
  destruct (Nat.le_gt_cases (List.length (Radix.to_digits 58 n)) m) as [H|H];
    [|lia].
  exfalso.
  apply (digits_length_le 58 bs58Facts.base_58) in H.
  assert (H' : n < 256 ^ N.of_nat m).
  { eapply N.lt_le_trans; [exact H|]. apply N.pow_le_mono_l. lia. }
  apply (digits_length_le 256 bs58Facts.base_256) in H'. lia.
Qed.

Lemma encode_length_upper (b : Buffer) (z : nat) :
  z = Radix.count_leading bs58.is_zero_byte b ->
  (List.length b - z <= 24)%nat ->
  (String.length (bs58.encode b) <= List.length b + 9)%nat.
Proof.
  intros Hz Hm24.
  destruct (encode_length b) as (z' & m & n & Hb & Hz' & Hlen & Hm).
  rewrite <- Hz in Hz'. subst z'.
  rewrite Hlen, Hb.
  assert (Hn : n < 256 ^ N.of_nat m).
  { apply (digits_length_le 256 bs58Facts.base_256). lia. }
  assert (Hk : (List.length (Radix.to_digits 58 n) <= m + 9)%nat).
  { apply (digits_length_le 58 bs58Facts.base_58).
    eapply N.lt_le_trans; [exact Hn|]. apply pow_256_58. lia. }
  lia.
Qed.

Lemma encode_alphabet (b : Buffer) :
  Forall (fun c => In c (list_ascii_of_string bs58.ALPHABET))
         (list_ascii_of_string (bs58.encode b)).
Proof.
  unfold bs58.encode. cbv zeta.
  rewrite list_ascii_of_string_of_list_ascii.
  apply Forall_app. split.
  - apply Forall_forall. intros c Hc. apply repeat_spec in Hc. subst c.
    left. reflexivity.
  - apply Forall_forall. intros c Hc. apply in_map_iff in Hc.
    destruct Hc as [d [<- Hd]].
    pose proof (RadixFacts.to_digits_bounded 58 bs58Facts.base_58
                  (Radix.of_digits 256 (Ns_of_bytes b))) as Hb.
    rewrite Forall_forall in Hb. specialize (Hb d Hd).
    unfold bs58.alphabet_char. apply nth_In.
    change (List.length (list_ascii_of_string bs58.ALPHABET)) with 58%nat.
    lia.
Qed.

(** X8: Every address is written in the base-58 alphabet: it has none of the
    characters 0, O, I and l, and nothing that needs escaping in the path
    of the ledger request. *)
Theorem generateAddress_alphabet (mem : nat -> byte) (docHash : Buffer) :
  exists a,
    generateAddress mem docHash = Normal a
    /\ Forall (fun c => In c (list_ascii_of_string bs58.ALPHABET))
              (list_ascii_of_string (address a))
    /\ Forall (fun c => c <> "0" /\ c <> "O" /\ c <> "I" /\ c <> "l"
                        /\ c <> "/" /\ c <> "?")%char
              (list_ascii_of_string (address a)).
Proof.
  exists (deriveAddress docHash).
  split; [apply generateAddress_eq|].
  assert (H : Forall (fun c => In c (list_ascii_of_string bs58.ALPHABET))
                (list_ascii_of_string (address (deriveAddress docHash))))
    by apply encode_alphabet.
  split; [exact H|].
  eapply Forall_impl; [|exact H].
  intros c Hc.
  repeat split; intros ->; vm_compute in Hc; intuition discriminate.
Qed.

(** X9: Every address has between 25 and 34 characters. *)
Theorem generateAddress_address_length (mem : nat -> byte) (docHash : Buffer) :
  exists a,
    generateAddress mem docHash = Normal a
    /\ (25 <= String.length (address a) <= 34)%nat.
Proof.
  exists (deriveAddress docHash).
  split; [apply generateAddress_eq|].
  cbn [deriveAddress address]. unfold spec_address.
  pose proof (spec_h5_length docHash) as Hl.
  split.
  - rewrite <- Hl. apply encode_length_lower.
  - change 34%nat with (25 + 9)%nat. rewrite <- Hl.
    apply (encode_length_upper _ _ eq_refl).
    rewrite Hl. unfold spec_h5, spec_h2.
    cbn [app Radix.count_leading].
    change (bs58.is_zero_byte x00) with true. cbv iota. lia.
Qed.

(** ** Reading a file *)

(** X10: After any chunks, a stream that then emits 'end' has the callback
    called with the digest of all the bytes received, in their order; a
    stream that then emits 'error' has the error thrown and the callback not
    called; as long as neither has arrived the callback is not called. *)
Theorem _sha256File_run_outcomes (chunks : list Buffer) (sha256sum : Buffer) :
  _sha256File_run _sha256File_listeners (map ev_data chunks ++ [ev_end])
    sha256sum
  = callback_ok (SHA256.hash (sha256sum ++ List.concat chunks))
  /\ (forall e,
        _sha256File_run _sha256File_listeners
          (map ev_data chunks ++ [ev_error e]) sha256sum
        = uncaught e)
  /\ _sha256File_run _sha256File_listeners (map ev_data chunks) sha256sum
     = pending.
Proof.
  split; [|split].
  - now rewrite _sha256File_run_chunks.
  - intros e. now rewrite _sha256File_run_chunks.
  - rewrite <- (app_nil_r (map ev_data chunks)).
    now rewrite _sha256File_run_chunks.
Qed.

(** X11: The digest does not depend on how the file is cut into chunks, nor on
    its name: two readable files with the same bytes give the same
    digest, the SHA-256 of those bytes. *)
Theorem _sha256File_chunking (fs1 fs2 : string -> ReadStream)
    (fileName1 fileName2 : string) :
  stream_failure (fs1 fileName1) = None ->
  stream_failure (fs2 fileName2) = None ->
  List.concat (stream_chunks (fs1 fileName1))
  = List.concat (stream_chunks (fs2 fileName2)) ->
  _sha256File fs1 fileName1 = _sha256File fs2 fileName2
  /\ _sha256File fs1 fileName1
     = callback_ok
         (_sha256 (List.concat (stream_chunks (fs1 fileName1)))).
Proof.
  intros H1 H2 E.
  rewrite (_sha256File_end _ _ H1), (_sha256File_end _ _ H2), E.
  split; reflexivity.
Qed.

Lemma _sha256File_chunking_witness :
  _sha256File
    (fun _ => {| stream_chunks := [[x61]; [x62; x63]];
                 stream_failure := None |}) "a.txt"
  = _sha256File
      (fun _ => {| stream_chunks := [[x61; x62]; []; [x63]];
                   stream_failure := None |}) "b.txt".
Proof.
  exact (proj1 (_sha256File_chunking
                  (fun _ => {| stream_chunks := [[x61]; [x62; x63]];
                               stream_failure := None |})
                  (fun _ => {| stream_chunks := [[x61; x62]; []; [x63]];
                               stream_failure := None |})
                  "a.txt" "b.txt" eq_refl eq_refl eq_refl)).
Defined.

(** ** [generateAddressForFile] *)

(** X12: [generateAddressForFile] never passes an error to its callback:
    when the stream of the file ends, the callback receives the address
    that [generateAddress] gives for the SHA-256 of the bytes, with that
    digest in hex as the [sha256] field; when the stream fails, the error is
    thrown and the callback is not called. *)
Theorem generateAddressForFile_outcomes (fs : string -> ReadStream)
    (mem : nat -> byte) (fileName : string) :
  (stream_failure (fs fileName) = None ->
   exists a,
     generateAddressForFile fs mem fileName = callback_ok a
     /\ generateAddress mem
          (_sha256 (List.concat (stream_chunks (fs fileName))))
        = Normal a
     /\ sha256 a
        = toString_hex (_sha256 (List.concat (stream_chunks (fs fileName)))))
  /\ (forall e,
        stream_failure (fs fileName) = Some e ->
        generateAddressForFile fs mem fileName = uncaught e)
  /\ (forall err,
        generateAddressForFile fs mem fileName <> callback_err err).
Proof.
  split; [|split].
  - intros H.
    exists (deriveAddress
              (SHA256.hash (List.concat (stream_chunks (fs fileName))))).
    split; [now apply generateAddressForFile_end|].
    split; [apply generateAddress_eq|reflexivity].
  - intros e H. now apply generateAddressForFile_error.
  - intros err.
    destruct (stream_failure (fs fileName)) as [e|] eqn:H.
    + rewrite (generateAddressForFile_error _ _ _ _ H). discriminate.
    + rewrite (generateAddressForFile_end _ _ _ H). discriminate.
Qed.

(** X13: The document address is a function of the bytes of the file alone:
    not of its name, of the chunks it is read in, or of the memory the
    buffers are allocated in. *)
Theorem generateAddressForFile_content (fs1 fs2 : string -> ReadStream)
    (mem1 mem2 : nat -> byte) (fileName1 fileName2 : string) :
  stream_failure (fs1 fileName1) = None ->
  stream_failure (fs2 fileName2) = None ->
  List.concat (stream_chunks (fs1 fileName1))
  = List.concat (stream_chunks (fs2 fileName2)) ->
  generateAddressForFile fs1 mem1 fileName1
  = generateAddressForFile fs2 mem2 fileName2.
Proof.
  intros H1 H2 E.
  rewrite (generateAddressForFile_end _ _ _ H1).
  rewrite (generateAddressForFile_end _ _ _ H2).
  now rewrite E.
Qed.

Lemma generateAddressForFile_content_witness :
  generateAddressForFile
    (fun _ => {| stream_chunks := [[x61]; [x62; x63]];
                 stream_failure := None |}) (fun _ => x00) "a.txt"
  = generateAddressForFile
      (fun _ => {| stream_chunks := [[x61; x62; x63]];
                   stream_failure := None |}) (fun _ => xff) "b.txt".
Proof.
  exact (generateAddressForFile_content
           (fun _ => {| stream_chunks := [[x61]; [x62; x63]];
                        stream_failure := None |})
           (fun _ => {| stream_chunks := [[x61; x62; x63]];
                        stream_failure := None |})
           (fun _ => x00) (fun _ => xff) "a.txt" "b.txt"
           eq_refl eq_refl eq_refl).
Defined.

(** ** [verifyTimestamp] *)






Lemma verifyTimestamp_callback_no_list_witness :
  verifyTimestamp_callback {| reply_err := None; reply_data := None |}
  = callback_err (err_string "Address not seen in the network")
  /\ verifyTimestamp_callback
       {| reply_err := None; reply_data := Some {| txs := None |} |}
     = callback_err (err_string "Address not seen in the network").
Proof.
  split.
  - exact (verifyTimestamp_callback_no_list
             {| reply_err := None; reply_data := None |}
             eq_refl (or_introl eq_refl)).
  - exact (verifyTimestamp_callback_no_list
             {| reply_err := None; reply_data := Some {| txs := None |} |}
             eq_refl (or_intror eq_refl)).
Defined.

(** ** The command line *)

(** X17: Without a file name, and also with an empty one, nothing is read and
    nothing is requested: the process ends in the help of commander, or
    with code 1 when the help returns. *)
Theorem main_file_required (help_exit : option Z) (fs : string -> ReadStream)
    (mem : nat -> byte) (get : Options -> ClientReply) (program : Program) :
  program_file program = None \/ program_file program = Some EmptyString ->
  main help_exit fs mem get program
  = process_exit (match help_exit with Some code => code | None => 1%Z end)
  /\ forall fs' mem' get',
       main help_exit fs' mem' get' program = main help_exit fs mem get program.
Proof.
  intros H. unfold main.
  destruct H as [-> | ->]; destruct help_exit; split; reflexivity.
Qed.

Lemma main_file_required_witness :
  main None no_files (fun _ => x00) (ledger_with [])
    {| program_file := Some EmptyString; program_verify := true |}
  = process_exit 1.
Proof.
  exact (proj1 (main_file_required None no_files (fun _ => x00)
                  (ledger_with [])
                  {| program_file := Some EmptyString; program_verify := true |}
                  (or_intror eq_refl))).
Defined.



(** X19: A file whose stream fails ends the process by the uncaught stream
    error, whatever the options and the ledger: the error branch of the
    command line is not reached and no exit code is set by the program. *)
Theorem main_unreadable_file (help_exit : option Z)
    (fs : string -> ReadStream) (mem : nat -> byte)
    (get : Options -> ClientReply) (c : ascii) (f : string) (verify : bool)
    (e : Error) (fatal_code : Z) :
  stream_failure (fs (String c f)) = Some e ->
  main help_exit fs mem get
    {| program_file := Some (String c f); program_verify := verify |}
  = fatal e
  /\ exit_code fatal_code
       (main help_exit fs mem get
          {| program_file := Some (String c f); program_verify := verify |})
     = Some fatal_code.
Proof.
  intros H. unfold main. cbn [program_file program_verify].
  rewrite (generateAddressForFile_error _ _ _ _ H). split; reflexivity.
Qed.

Lemma main_unreadable_file_witness :
  main None no_files (fun _ => x00) (ledger_with [mkTx 5])
    {| program_file := Some "a.txt"%string; program_verify := true |}
  = fatal (SystemError "ENOENT").
Proof.
  exact (proj1 (main_unreadable_file None no_files (fun _ => x00)
                  (ledger_with [mkTx 5]) "a"%char ".txt"%string true
                  (SystemError "ENOENT") 1 eq_refl)).
Defined.

(** X20: The ledger is asked only with [--verify] and only after the file was
    digested: without the flag, or when the stream of the file fails, the
    run is the same for every ledger; without the flag a readable file
    ends with code 0. *)
Theorem main_ledger_only_on_verify (help_exit : option Z)
    (fs : string -> ReadStream) (mem : nat -> byte)
    (get1 get2 : Options -> ClientReply) (program : Program) :
  program_verify program = false
  \/ (exists fileName e,
        program_file program = Some fileName
        /\ stream_failure (fs fileName) = Some e) ->
  main help_exit fs mem get1 program = main help_exit fs mem get2 program
  /\ (program_verify program = false ->
      forall c f,
        program_file program = Some (String c f) ->
        stream_failure (fs (String c f)) = None ->
        main help_exit fs mem get1 program = drained).
Proof.
  intros H. destruct program as [file verify].
  cbn [program_file program_verify] in *. unfold main.
  cbn [program_file program_verify].
  split.
  - destruct file as [[|c f]|]; try reflexivity.
    destruct H as [-> | (fileName & e & Hf & He)].
    + destruct (generateAddressForFile fs mem (String c f)); reflexivity.
    + inversion Hf; subst fileName.
      now rewrite (generateAddressForFile_error _ _ _ _ He).
  - intros -> c f -> Hs.
    now rewrite (generateAddressForFile_end _ _ _ Hs).
Qed.

Lemma main_ledger_only_on_verify_witness :
  main None (fun _ => {| stream_chunks := [[x61]]; stream_failure := None |})
    (fun _ => x00) (ledger_with [])
    {| program_file := Some "a.txt"%string; program_verify := false |}
  = main None (fun _ => {| stream_chunks := [[x61]]; stream_failure := None |})
      (fun _ => x00) (ledger_down (RestError 500 "down"))
      {| program_file := Some "a.txt"%string; program_verify := false |}.
Proof.
  exact (proj1 (main_ledger_only_on_verify None
                  (fun _ => {| stream_chunks := [[x61]];
                               stream_failure := None |})
                  (fun _ => x00) (ledger_with [])
                  (ledger_down (RestError 500 "down"))
                  {| program_file := Some "a.txt"%string;
                     program_verify := false |}
                  (or_introl eq_refl))).
Defined.
